(** * QModbusServer: register map, coil codec and request dispatcher

    A shallow embedding of [src/serialbus/qmodbusserver.cpp].  Fixed-width
    integers are [Z] with the conversions written out, [QVector] is a list
    indexed from zero, the server's private object is a record of its four
    tables, and a handler returns either a response together with the new
    server state or a fault (an access the C++ code leaves undefined). *)

From Stdlib Require Import ZArith Lia.
From stdpp Require Import base list gmap.

Local Open Scope Z_scope.

(** ** Fixed-width integers *)

Definition quint8 (z : Z) : Z := z mod 256.
Definition quint16 (z : Z) : Z := z mod 65536.

(** [int] to [unsigned int], the conversion the usual arithmetic conversions
    apply to [startAddress() + valueCount()], an [int] plus an unsigned
    count, before it is compared: a negative sum becomes its distance above
    2^32.  The sums converted lie between -2^31 and 2^32, the start address
    being an [int] and a vector holding fewer than 2^31 words. *)
Definition to_unsigned (z : Z) : Z := if z <? 0 then z + 2 ^ 32 else z.

(** ** Outcomes

    [Undecodable]: the payload is too short for the fields the handler
    decodes.  [IndexOutOfRange]: [QVector::operator[]] outside the vector,
    which Qt asserts against and otherwise leaves undefined. *)

Inductive fault : Set := Undecodable | IndexOutOfRange.

Inductive result (A : Type) : Type :=
| Ok (a : A)
| Fault (f : fault).
Arguments Ok {A} a.
Arguments Fault {A} f.

Definition bind {A B : Type} (r : result A) (k : A -> result B) : result B :=
  match r with
  | Ok a => k a
  | Fault f => Fault f
  end.

Notation "'let*' p ':=' e 'in' k" :=
  (bind e (fun x => match x with p => k end))
  (at level 10, p pattern, e at level 100, k at level 200, only parsing).

(** ** QVector and std::bitset<8> *)

Module QVector.

Definition count (v : list Z) : Z := Z.of_nat (length v).

(** [mid(pos, len)], called here with [pos >= 0] and [len >= 0] only:
      the sub-vector from [pos], cut at the end of the vector. *)
Definition mid (v : list Z) (pos len : Z) : list Z :=
    take (Z.to_nat len) (drop (Z.to_nat pos) v).

(** [resize(n)]: cut, or extend with default-constructed (zero) words. *)
Definition resize (v : list Z) (n : Z) : list Z :=
    take (Z.to_nat n) v ++ replicate (Z.to_nat n - length v)%nat 0.

(** [insert(i, n, t)]: [n] copies of [t] before position [i]. *)
Definition insert (v : list Z) (i n t : Z) : list Z :=
    take (Z.to_nat i) v ++ replicate (Z.to_nat n) t ++ drop (Z.to_nat i) v.

Definition in_range (v : list Z) (i : Z) : bool :=
    (0 <=? i) && (i <? count v).

(** [v[i]] read through the non-const [operator[]]. *)
Definition get (v : list Z) (i : Z) : result Z :=
    if in_range v i then
      match v !! Z.to_nat i with
      | Some w => Ok w
      | None => Fault IndexOutOfRange
      end
    else Fault IndexOutOfRange.

(** [v[i] = w]. *)
Definition set (v : list Z) (i w : Z) : result (list Z) :=
    if in_range v i then Ok (<[Z.to_nat i := w]> v) else Fault IndexOutOfRange.

(** [value(i)]: the default-constructed word outside the vector. *)
Definition value (v : list Z) (i : Z) : Z :=
    if in_range v i then default 0 (v !! Z.to_nat i) else 0.

End QVector.

Module bitset8.

(** [byte[pos] = b] *)
Definition assign (byte pos : Z) (b : bool) : Z :=
    if b then Z.setbit byte pos else Z.clearbit byte pos.

(** [byte[pos]] *)
Definition test (byte pos : Z) : bool := Z.testbit byte pos.

End bitset8.

(** Conversions between a [quint16] word and a [bool]. *)
Definition to_bool (w : Z) : bool := negb (w =? 0).
Definition of_bool (b : bool) : Z := Z.b2z b.

(** ** QModbusDataUnit *)

Inductive RegisterType : Set :=
| Invalid | DiscreteInputs | Coils | InputRegisters | HoldingRegisters.

Definition RegisterType_eqb (a b : RegisterType) : bool :=
  match a, b with
  | Invalid, Invalid | DiscreteInputs, DiscreteInputs | Coils, Coils
  | InputRegisters, InputRegisters | HoldingRegisters, HoldingRegisters => true
  | _, _ => false
  end.

(** Modelled from the spec: class [QModbusDataUnit] (qmodbusdataunit.h is
    not part of the sources).  A register table has a kind, a signed start
    address and an ordered sequence of 16-bit words indexed
    [0 .. valueCount-1]; it is valid iff its kind is not [Invalid].  The
    element accessors take a position in that sequence, which is how
    [setData] reads its argument ([newData.value(i - newData.startAddress())]);
    [setValue] outside the sequence changes nothing.  The count is
    unsigned, as the cast [int(newData.valueCount())] in [setData] shows:
    where the code stores a sum of a start address and a count in an [int]
    the sum is the integer sum, the tables being far smaller than the range
    of [int]; where it compares such a sum directly the sum is converted by
    [to_unsigned]. *)
Record QModbusDataUnit : Set := mkDataUnit {
  registerType : RegisterType;
  startAddress : Z;
  values : list Z
}.

Definition valueCount (u : QModbusDataUnit) : Z := QVector.count (values u).

Definition isValid (u : QModbusDataUnit) : bool :=
  negb (RegisterType_eqb (registerType u) Invalid).

Definition setValues (u : QModbusDataUnit) (newValues : list Z) : QModbusDataUnit :=
  mkDataUnit (registerType u) (startAddress u) newValues.

Definition value (u : QModbusDataUnit) (index : Z) : Z :=
  QVector.value (values u) index.

Definition setValue (u : QModbusDataUnit) (index newValue : Z) : QModbusDataUnit :=
  if QVector.in_range (values u) index
  then setValues u (<[Z.to_nat index := newValue]> (values u))
  else u.

(** ** Protocol data units *)

(** Modelled from the spec: [QModbusPdu], [QModbusResponse] and
    [QModbusExceptionResponse] (qmodbuspdu.h is not part of the sources).
    A PDU is a function code and a payload of bytes; the fields of a
    payload are laid out in order, 16-bit fields most significant byte
    first; an exception response sets bit 7 of the function code and
    carries the one-byte exception code. *)
Record QModbusPdu : Set := mkPdu {
  functionCode : Z;
  data : list Z
}.

Definition IllegalFunction : Z := 1.
Definition IllegalDataAddress : Z := 2.
Definition IllegalDataValue : Z := 3.

Definition QModbusExceptionResponse (fc ec : Z) : QModbusPdu :=
  mkPdu (Z.lor fc 0x80) [ec].

Definition encode16 (w : Z) : list Z := [quint8 (w / 256); quint8 w].

(** [QModbusResponse(fc, quint16, quint16)] *)
Definition QModbusResponse_u16_u16 (fc a b : Z) : QModbusPdu :=
  mkPdu fc (encode16 a ++ encode16 b).

(** [QModbusResponse(fc, quint8, QVector<quint8>)] *)
Definition QModbusResponse_u8_bytes (fc n : Z) (bytes : list Z) : QModbusPdu :=
  mkPdu fc (quint8 n :: map quint8 bytes).

Definition decode16 (hi lo : Z) : Z := quint8 hi * 256 + quint8 lo.

(** [decodeData(&quint16, &quint16)] *)
Definition decodeData_u16_u16 (request : QModbusPdu) : result (Z * Z) :=
  match data request with
  | a1 :: a0 :: b1 :: b0 :: _ => Ok (decode16 a1 a0, decode16 b1 b0)
  | _ => Fault Undecodable
  end.

(** [decodeData(&quint16, &quint16, &quint8)] *)
Definition decodeData_u16_u16_u8 (request : QModbusPdu) : result (Z * Z * Z) :=
  match data request with
  | a1 :: a0 :: b1 :: b0 :: c :: _ => Ok (decode16 a1 a0, decode16 b1 b0, quint8 c)
  | _ => Fault Undecodable
  end.

(** Modelled from the spec: the function codes of [QModbusPdu::FunctionCode]
    (qmodbuspdu.h is not part of the sources); the spec gives 0x01, 0x05 and
    0x0F, the others are the codes of the Modbus application protocol. *)
Module FunctionCode.
Definition ReadCoils : Z := 0x01.
Definition ReadDiscreteInputs : Z := 0x02.
Definition ReadHoldingRegisters : Z := 0x03.
Definition ReadInputRegisters : Z := 0x04.
Definition WriteSingleCoil : Z := 0x05.
Definition WriteSingleRegister : Z := 0x06.
Definition ReadExceptionStatus : Z := 0x07.
Definition Diagnostics : Z := 0x08.
Definition GetCommEventCounter : Z := 0x0B.
Definition GetCommEventLog : Z := 0x0C.
Definition WriteMultipleCoils : Z := 0x0F.
Definition WriteMultipleRegisters : Z := 0x10.
Definition ReportServerId : Z := 0x11.
Definition ReadFileRecord : Z := 0x14.
Definition WriteFileRecord : Z := 0x15.
Definition MaskWriteRegister : Z := 0x16.
Definition ReadWriteMultipleRegisters : Z := 0x17.
Definition ReadFifoQueue : Z := 0x18.
Definition EncapsulatedInterfaceTransport : Z := 0x2B.
End FunctionCode.

(** ** The server's register map *)

Record QModbusServerPrivate : Set := mkServer {
  m_discreteInputs : QModbusDataUnit;
  m_coils : QModbusDataUnit;
  m_inputRegisters : QModbusDataUnit;
  m_holdingRegisters : QModbusDataUnit
}.

Definition set_coils (d : QModbusServerPrivate) (u : QModbusDataUnit) : QModbusServerPrivate :=
  mkServer (m_discreteInputs d) u (m_inputRegisters d) (m_holdingRegisters d).

(** The [switch] on the register type that every accessor starts with:
    [None] for [Invalid], otherwise the table the pointer is set to. *)
Definition unit_of (d : QModbusServerPrivate) (table : RegisterType) : option QModbusDataUnit :=
  match table with
  | Invalid => None
  | DiscreteInputs => Some (m_discreteInputs d)
  | Coils => Some (m_coils d)
  | InputRegisters => Some (m_inputRegisters d)
  | HoldingRegisters => Some (m_holdingRegisters d)
  end.

(** Writing through that pointer. *)
Definition set_unit (d : QModbusServerPrivate) (table : RegisterType) (u : QModbusDataUnit)
  : QModbusServerPrivate :=
  match table with
  | Invalid => d
  | DiscreteInputs => mkServer u (m_coils d) (m_inputRegisters d) (m_holdingRegisters d)
  | Coils => mkServer (m_discreteInputs d) u (m_inputRegisters d) (m_holdingRegisters d)
  | InputRegisters => mkServer (m_discreteInputs d) (m_coils d) u (m_holdingRegisters d)
  | HoldingRegisters => mkServer (m_discreteInputs d) (m_coils d) (m_inputRegisters d) u
  end.

(** ** Accessors of the register map *)

(** Lines 109-137 of [QModbusServer::data(table, address, quint16 *data)],
    what the function does once the null check of line 107 has let a
    pointer through: the flag, and the word stored through the pointer
    when one is stored.  The address is a [quint16]; the sum it is
    compared with is unsigned, the count being unsigned. *)
Definition data_element (d : QModbusServerPrivate) (table : RegisterType) (address : Z)
  : bool * option Z :=
  match unit_of d table with
  | None => (false, None)
  | Some unit =>
      if negb (isValid unit)
         || (address <? startAddress unit)
         || (address >=? to_unsigned (startAddress unit + valueCount unit))
      then (false, None)
      else (true, Some (value unit address))
  end.

(** [QModbusServer::data(table, address, quint16 *data)] as a whole, with
    the pointer as an argument: [None] is the null pointer, refused at
    line 107 before the table is looked at; [Some w] is a pointer to a
    word [w], which the function never reads. *)
Definition QModbusServer_data (d : QModbusServerPrivate) (table : RegisterType)
    (address : Z) (data : option Z) : bool * option Z :=
  match data with
  | None => (false, None)
  | Some _ => data_element d table address
  end.

(** [QModbusServer::data(QModbusDataUnit *newData)]: the flag and the unit
    behind the pointer afterwards; [None] is the null pointer. *)
Definition data_unit (d : QModbusServerPrivate) (newData : option QModbusDataUnit)
  : bool * option QModbusDataUnit :=
  match newData with
  | None => (false, None)
  | Some q =>
      match unit_of d (registerType q) with
      | None => (false, Some q)
      | Some current =>
          if startAddress q <? 0 then (true, Some current)
          else
            let internalRangeEndAddress := startAddress current + valueCount current - 1 in
            if (startAddress q <? startAddress current)
               || (startAddress q >? internalRangeEndAddress)
            then (false, Some q)
            else
              let rangeEndAddress := startAddress q + valueCount q - 1 in
              if (rangeEndAddress <? startAddress current)
                 || (rangeEndAddress >? internalRangeEndAddress)
              then (false, Some q)
              else
                (true, Some (setValues q (QVector.mid (values current)
                                                       (startAddress q) (valueCount q))))
      end
  end.

(** [QModbusServer::setData(table, address, data)] *)
Definition setData_element (d : QModbusServerPrivate) (table : RegisterType) (address data : Z)
  : bool * QModbusServerPrivate :=
  match unit_of d table with
  | None => (false, d)
  | Some unit =>
      if negb (isValid unit)
         || (address <? startAddress unit)
         || (address >=? to_unsigned (startAddress unit + valueCount unit))
      then (false, d)
      else (true, set_unit d table (setValue unit address data))
  end.

(** The loop of [setData(const QModbusDataUnit &)]:
    [for (i = start; i < start + count; i++)
       current->setValue(i, newData.value(i - newData.startAddress()))],
    with [n] the number of iterations left. *)
Fixpoint setData_loop (n : nat) (i : Z) (newData current : QModbusDataUnit) : QModbusDataUnit :=
  match n with
  | O => current
  | S n' =>
      setData_loop n' (i + 1) newData
        (setValue current i (value newData (i - startAddress newData)))
  end.

(** [QModbusServer::setData(const QModbusDataUnit &newData)] *)
Definition setData_unit (d : QModbusServerPrivate) (newData : QModbusDataUnit)
  : bool * QModbusServerPrivate :=
  match unit_of d (registerType newData) with
  | None => (false, d)
  | Some current =>
      if negb (isValid current) then (false, d)
      else
        let internalRangeEndAddress := startAddress current + valueCount current - 1 in
        if (startAddress newData <? startAddress current)
           || (startAddress newData >? internalRangeEndAddress)
        then (false, d)
        else
          let rangeEndAddress := startAddress newData + valueCount newData - 1 in
          if (rangeEndAddress <? startAddress current)
             || (rangeEndAddress >? internalRangeEndAddress)
          then (false, d)
          else
            (true, set_unit d (registerType newData)
                     (setData_loop (Z.to_nat (valueCount newData)) (startAddress newData)
                                   newData current))
  end.

(** ** Read Coils *)

(** The inner loop of [processReadCoilsRequest],
    [for (currentBit = 0; currentBit < 8; ++currentBit)
       byte[currentBit] = data[address++]],
    with [n] iterations left. *)
Fixpoint readCoils_bits (n : nat) (currentBit : Z) (data : list Z) (address byte : Z)
  : result (Z * Z) :=
  match n with
  | O => Ok (byte, address)
  | S n' =>
      let* w := QVector.get data address in
      readCoils_bits n' (currentBit + 1) data (quint16 (address + 1))
                     (bitset8.assign byte currentBit (to_bool w))
  end.

(** The outer loop, [for (i = 0; i < byteCount; ++i)], appending
    [static_cast<quint8>(byte.to_ulong())]; [n] iterations left. *)
Fixpoint readCoils_bytes (n : nat) (data : list Z) (address : Z) (bytes : list Z)
  : result (list Z) :=
  match n with
  | O => Ok bytes
  | S n' =>
      let* (byte, address') := readCoils_bits 8 0 data address 0 in
      readCoils_bytes n' data address' (bytes ++ [quint8 byte])
  end.

(** Lines 411-428 of [processReadCoilsRequest]: the byte count, the zero
    padding of the requested range and the packing of eight words a byte. *)
Definition packCoils (data : list Z) (numberOfCoils : Z) : result (Z * list Z) :=
  let byteCount := quint8 (numberOfCoils / 8) in
  let '(byteCount, data) :=
    if negb (QVector.count data mod 8 =? 0) then
      let byteCount := quint8 (byteCount + 1) in
      (byteCount,
       QVector.insert (QVector.resize data (byteCount * 8))
                      numberOfCoils (byteCount * 8 - numberOfCoils) 0)
    else (byteCount, data) in
  let* bytes := readCoils_bytes (Z.to_nat byteCount) data 0 [] in
  Ok (byteCount, bytes).

Definition processReadCoilsRequest (d : QModbusServerPrivate) (request : QModbusPdu)
  : result (QModbusPdu * QModbusServerPrivate) :=
  let* (address, numberOfCoils) := decodeData_u16_u16 request in
  if (numberOfCoils <? 0x0001) || (numberOfCoils >? 0x07D0) then
    Ok (QModbusExceptionResponse (functionCode request) IllegalDataValue, d)
  else if (startAddress (m_coils d) >? address)
          || (to_unsigned (startAddress (m_coils d) + valueCount (m_coils d))
              <? address + numberOfCoils)
  then
    Ok (QModbusExceptionResponse (functionCode request) IllegalDataAddress, d)
  else
    let* (byteCount, bytes) :=
      packCoils (QVector.mid (values (m_coils d)) address numberOfCoils) numberOfCoils in
    Ok (QModbusResponse_u8_bytes (functionCode request) byteCount bytes, d).

(** ** Write Single Coil *)

Definition processWriteSingleCoilRequest (d : QModbusServerPrivate) (request : QModbusPdu)
  : result (QModbusPdu * QModbusServerPrivate) :=
  let* (address, value) := decodeData_u16_u16 request in
  if negb (value =? 0x0000) && negb (value =? 0xFF00) then
    Ok (QModbusExceptionResponse (functionCode request) IllegalDataValue, d)
  else if (startAddress (m_coils d) >? address)
          || (to_unsigned (startAddress (m_coils d) + valueCount (m_coils d)) <? address)
  then
    Ok (QModbusExceptionResponse (functionCode request) IllegalDataAddress, d)
  else
    let* data := QVector.set (values (m_coils d)) address value in
    Ok (QModbusResponse_u16_u16 (functionCode request) address value,
        set_coils d (setValues (m_coils d) data)).

(** ** Write Multiple Coils *)

(** The inner loop of [processWriteMultipleCoilsRequest],
    [for (currentBit -= 1; currentBit >= 0; --currentBit)
       values[--coil] = currentByte[currentBit]],
    entered with [currentBit = n]: the bits [n-1], ..., [0] are stored. *)
Fixpoint writeCoils_bits (n : nat) (currentByte : Z) (vals : list Z) (coil : Z)
  : result (list Z * Z) :=
  match n with
  | O => Ok (vals, coil)
  | S currentBit =>
      let coil := quint16 (coil - 1) in
      let* vals :=
        QVector.set vals coil (of_bool (bitset8.test currentByte (Z.of_nat currentBit))) in
      writeCoils_bits currentBit currentByte vals coil
  end.

(** The [foreach] over the bytes; [currentBit] is reset to 8 after each. *)
Fixpoint writeCoils_bytes (bytes : list Z) (currentBit : Z) (vals : list Z) (coil : Z)
  : result (list Z) :=
  match bytes with
  | [] => Ok vals
  | currentByte :: bytes' =>
      let* (vals, coil) := writeCoils_bits (Z.to_nat currentBit) currentByte vals coil in
      writeCoils_bytes bytes' 8 vals coil
  end.

(** Lines 479-492 of [processWriteMultipleCoilsRequest]: the payload bytes
    are collected last byte first and their bits stored downwards from
    [address + numberOfCoils]. *)
Definition unpackCoils (payload : list Z) (address numberOfCoils byteCount : Z)
    (vals : list Z) : result (list Z) :=
  let bytes := map quint8 (rev payload) in
  let coil := quint16 (address + numberOfCoils) in
  let currentBit := 8 - (byteCount * 8 - numberOfCoils) in
  writeCoils_bytes bytes currentBit vals coil.

Definition processWriteMultipleCoilsRequest (d : QModbusServerPrivate) (request : QModbusPdu)
  : result (QModbusPdu * QModbusServerPrivate) :=
  let* (address, numberOfCoils, byteCount) := decodeData_u16_u16_u8 request in
  let expectedBytes := quint8 (numberOfCoils / 8) in
  let expectedBytes :=
    if negb (numberOfCoils mod 8 =? 0) then quint8 (expectedBytes + 1) else expectedBytes in
  if (numberOfCoils <? 0x0001) || (numberOfCoils >? 0x07B0)
     || negb (expectedBytes =? byteCount)
  then
    Ok (QModbusExceptionResponse (functionCode request) IllegalDataValue, d)
  else if (startAddress (m_coils d) >? address)
          || (to_unsigned (startAddress (m_coils d) + valueCount (m_coils d))
              <? address + numberOfCoils)
  then
    Ok (QModbusExceptionResponse (functionCode request) IllegalDataAddress, d)
  else
    let payload := drop 5 (data request) in
    let* vals := unpackCoils payload address numberOfCoils byteCount (values (m_coils d)) in
    Ok (QModbusResponse_u16_u16 (functionCode request) address numberOfCoils,
        set_coils d (setValues (m_coils d) vals)).

(** ** The dispatcher *)

(** [QModbusServer::processCustomRequest], the default of the virtual hook. *)
Definition processCustomRequest (d : QModbusServerPrivate) (request : QModbusPdu)
  : result (QModbusPdu * QModbusServerPrivate) :=
  Ok (QModbusExceptionResponse (functionCode request) IllegalFunction, d).

Section Dispatch.

(** The implementation [q_func()->processCustomRequest] resolves to. *)
Variable customRequest :
  QModbusServerPrivate -> QModbusPdu -> result (QModbusPdu * QModbusServerPrivate).

(** [QModbusServerPrivate::processRequest]: each group of [case] labels
    runs the first statement below it. *)
Definition processRequest (d : QModbusServerPrivate) (request : QModbusPdu)
  : result (QModbusPdu * QModbusServerPrivate) :=
  let fc := functionCode request in
  if fc =? FunctionCode.ReadCoils then
    processReadCoilsRequest d request
  else if (fc =? FunctionCode.ReadDiscreteInputs)
          || (fc =? FunctionCode.ReadHoldingRegisters)
          || (fc =? FunctionCode.ReadInputRegisters)
          || (fc =? FunctionCode.WriteSingleCoil) then
    processWriteSingleCoilRequest d request
  else if (fc =? FunctionCode.WriteSingleRegister)
          || (fc =? FunctionCode.ReadExceptionStatus)
          || (fc =? FunctionCode.Diagnostics)
          || (fc =? FunctionCode.GetCommEventCounter)
          || (fc =? FunctionCode.GetCommEventLog)
          || (fc =? FunctionCode.WriteMultipleCoils) then
    processWriteMultipleCoilsRequest d request
  else
    customRequest d request.

End Dispatch.

(** [QModbusServer::processRequest] on a server that does not override
    the hook. *)
Definition QModbusServer_processRequest : QModbusServerPrivate -> QModbusPdu ->
    result (QModbusPdu * QModbusServerPrivate) :=
  processRequest processCustomRequest.

(** ** Vocabulary of the statements *)

Definition ceil_div8 (n : Z) : Z := (n + 7) / 8.

(** The words of a table are booleans. *)
Definition is_bit (w : Z) : Prop := w = 0 \/ w = 1.

(** The words the coil handlers store: a bit, or the ON value 0xFF00. *)
Definition is_coil_word (w : Z) : Prop := w = 0 \/ w = 1 \/ w = 0xFF00.

(** The word the spec places at logical address [a] of a table. *)
Definition word_at (u : QModbusDataUnit) (a : Z) : option Z :=
  if a <? startAddress u then None else values u !! Z.to_nat (a - startAddress u).

(** The three tables no handler is given. *)
Definition same_other_tables (d d' : QModbusServerPrivate) : Prop :=
  m_discreteInputs d' = m_discreteInputs d
  /\ m_inputRegisters d' = m_inputRegisters d
  /\ m_holdingRegisters d' = m_holdingRegisters d.

(** ** Closed forms of the codec loops *)

(** What [readCoils_bits] leaves in [byte] after the words [ws], the first
    of them going to bit [currentBit]. *)
Fixpoint pack_bits (currentBit : Z) (ws : list Z) (byte : Z) : Z :=
  match ws with
  | [] => byte
  | w :: ws' => pack_bits (currentBit + 1) ws' (bitset8.assign byte currentBit (to_bool w))
  end.

(** The bytes [readCoils_bytes] appends for [n] groups of eight words. *)
Fixpoint pack_groups (n : nat) (ws : list Z) : list Z :=
  match n with
  | O => []
  | S n' => quint8 (pack_bits 0 (take 8 ws) 0) :: pack_groups n' (drop 8 ws)
  end.

(** The words [writeCoils_bits] stores for the bits [0 .. n-1] of a byte,
    lowest position first. *)
Definition byte_bits (n : nat) (byte : Z) : list Z :=
  map (fun k => of_bool (bitset8.test byte (Z.of_nat k))) (seq 0 n).

(** The block of words [writeCoils_bytes] stores, lowest position first:
    the first byte it is given supplies [currentBit] bits at the top, every
    later byte eight bits below. *)
Fixpoint unpack_block (bytes : list Z) (currentBit : nat) : list Z :=
  match bytes with
  | [] => []
  | b :: bytes' => unpack_block bytes' 8 ++ byte_bits currentBit b
  end.

(** A word as Read Coils reports it. *)
Definition as_bit (w : Z) : Z := of_bool (to_bool w).

(** Every coil word is a bit. *)
Definition coils_are_bits (d : QModbusServerPrivate) : Prop :=
  Forall is_bit (values (m_coils d)).

(** Every coil word is one the coil handlers store. *)
Definition coils_are_coil_words (d : QModbusServerPrivate) : Prop :=
  Forall is_coil_word (values (m_coils d)).

(** [new] is [old] with some words replaced by bits. *)
Definition only_bits_stored (old new : list Z) : Prop :=
  length new = length old
  /\ forall (i : nat) w, new !! i = Some w -> old !! i = Some w \/ is_bit w.

(** Equality of register types is decidable. *)
#[global] Instance RegisterType_eq_dec : EqDecision RegisterType.
Proof. solve_decision. Defined.

(** ** Shapes of tables *)

(** Two units of the same kind, start address and number of values. *)
Definition same_shape (u u' : QModbusDataUnit) : Prop :=
  registerType u' = registerType u
  /\ startAddress u' = startAddress u
  /\ valueCount u' = valueCount u.

(** The four tables keep their shapes. *)
Definition same_shapes (d d' : QModbusServerPrivate) : Prop :=
  same_shape (m_discreteInputs d) (m_discreteInputs d')
  /\ same_shape (m_coils d) (m_coils d')
  /\ same_shape (m_inputRegisters d) (m_inputRegisters d')
  /\ same_shape (m_holdingRegisters d) (m_holdingRegisters d').

(** ** Payloads as Read Coils returns them *)


(** ** Addresses the element accessors accept *)

(** The guard of the element accessors: the table's kind is valid and
    the address lies from its start address up to, but not including, the
    unsigned sum of its start address and its number of values. *)
Definition accepts (d : QModbusServerPrivate) (table : RegisterType) (address : Z) : Prop :=
  exists unit,
    unit_of d table = Some unit
    /\ isValid unit = true
    /\ startAddress unit <= address < to_unsigned (startAddress unit + valueCount unit).

(** ** setMap *)

#[global] Instance RegisterType_countable : Countable RegisterType.
Proof.
  refine (inj_countable'
            (fun t => match t with
                      | Invalid => 0 | DiscreteInputs => 1 | Coils => 2
                      | InputRegisters => 3 | HoldingRegisters => 4
                      end)%nat
            (fun n => match n with
                      | 0 => Invalid | 1 => DiscreteInputs | 2 => Coils
                      | 3 => InputRegisters | _ => HoldingRegisters
                      end)%nat _).
  intros []; reflexivity.
Defined.

Section SetMap.

(** Modelled from the spec: the default-constructed [QModbusDataUnit] that
    [QMap::value] returns for a key the map lacks (qmodbusdataunit.h is not
    part of the sources): an invalid table without values.  Its start
    address, which the spec calls irrelevant, is left open. *)
Variable defaultStartAddress : Z.

Definition defaultDataUnit : QModbusDataUnit := mkDataUnit Invalid defaultStartAddress [].

(** [map.value(key)] on a [QModbusDataUnitMap]. *)
Definition map_value (map : gmap RegisterType QModbusDataUnit) (key : RegisterType)
  : QModbusDataUnit :=
  default defaultDataUnit (map !! key).

(** [QModbusServerPrivate::setMap] *)
Definition setMap (d : QModbusServerPrivate) (map : gmap RegisterType QModbusDataUnit)
  : bool * QModbusServerPrivate :=
  (true,
   mkServer (map_value map DiscreteInputs) (map_value map Coils)
            (map_value map InputRegisters) (map_value map HoldingRegisters)).

End SetMap.

(** ** Example configurations *)

Definition no_table : QModbusDataUnit := mkDataUnit Invalid 0 [].

(** Sixteen cleared coils at addresses 0..15. *)
Definition coils16 : QModbusServerPrivate :=
  mkServer no_table (mkDataUnit Coils 0 (replicate 16 0)) no_table no_table.

(** Four coils at addresses 2..5; the coils at 2 and 3 are set. *)
Definition coils_from_2 : QModbusServerPrivate :=
  mkServer no_table (mkDataUnit Coils 2 [1; 1; 0; 0]) no_table no_table.

(** Four holding registers at addresses 2..5. *)
Definition holding_from_2 : QModbusServerPrivate :=
  mkServer no_table no_table no_table (mkDataUnit HoldingRegisters 2 [10; 11; 12; 13]).

(** * Properties *)

(** ** Integers and decoding *)

Lemma quint8_small z : 0 <= z < 256 -> quint8 z = z.
Proof. intros H. unfold quint8. now apply Z.mod_small. Qed.

Lemma quint8_range z : 0 <= quint8 z < 256.
Proof. unfold quint8. apply Z.mod_pos_bound. lia. Qed.

Lemma to_unsigned_nonneg z : 0 <= z -> to_unsigned z = z.
Proof. intros H. unfold to_unsigned. destruct (Z.ltb_spec z 0); [lia | reflexivity]. Qed.

Lemma to_unsigned_neg z : z < 0 -> to_unsigned z = z + 2 ^ 32.
Proof. intros H. unfold to_unsigned. destruct (Z.ltb_spec z 0); [reflexivity | lia]. Qed.


Lemma quint16_small z : 0 <= z < 65536 -> quint16 z = z.
Proof. intros H. unfold quint16. now apply Z.mod_small. Qed.

Lemma decode16_range hi lo : 0 <= decode16 hi lo < 65536.
Proof.
  unfold decode16. pose proof (quint8_range hi). pose proof (quint8_range lo). lia.
Qed.

Lemma decodeData_u16_u16_range request a b :
  decodeData_u16_u16 request = Ok (a, b) -> 0 <= a < 65536 /\ 0 <= b < 65536.
Proof.
  unfold decodeData_u16_u16.
  destruct (data request) as [|a1 [|a0 [|b1 [|b0 rest]]]]; try discriminate.
  intros [= <- <-]. split; apply decode16_range.
Qed.

Lemma decodeData_u16_u16_u8_range request a b c :
  decodeData_u16_u16_u8 request = Ok (a, b, c) ->
  0 <= a < 65536 /\ 0 <= b < 65536 /\ 0 <= c < 256.
Proof.
  unfold decodeData_u16_u16_u8.
  destruct (data request) as [|a1 [|a0 [|b1 [|b0 [|c0 rest]]]]]; try discriminate.
  intros [= <- <- <-]. repeat split; try apply decode16_range; apply quint8_range.
Qed.

(** The byte count both coil handlers compute is the rounded-up eighth of
    the count, for every count Read Coils admits. *)
Lemma expectedBytes_ceil n :
  0 <= n <= 0x07D0 ->
  (if negb (n mod 8 =? 0) then quint8 (quint8 (n / 8) + 1) else quint8 (n / 8))
  = ceil_div8 n.
Proof.
  intros Hn. unfold ceil_div8.
  assert (Hq : 0 <= n / 8 < 251) by (split; [apply Z.div_pos | apply Z.div_lt_upper_bound]; lia).
  rewrite (quint8_small (n / 8)) by lia.
  destruct (Z.eqb_spec (n mod 8) 0) as [H0 | H0]; cbn [negb].
  - pose proof (Z.div_mod n 8). pose proof (Z.div_mod (n + 7) 8).
    pose proof (Z.mod_pos_bound (n + 7) 8). lia.
  - rewrite quint8_small by lia.
    pose proof (Z.div_mod n 8). pose proof (Z.div_mod (n + 7) 8).
    pose proof (Z.mod_pos_bound (n + 7) 8). pose proof (Z.mod_pos_bound n 8). lia.
Qed.

(** ** Accessors of the register map *)

Lemma unit_of_Some d table : table <> Invalid -> exists current, unit_of d table = Some current.
Proof. destruct table; intros H; try congruence; eexists; reflexivity. Qed.

(** C7: a range read whose register type is not [Invalid] and whose start
    address is negative returns [true] and replaces the queried unit by
    the stored table of that kind, the member of the server that the
    register type names, with its own start address and all its values,
    whatever the queried count and whatever the stored table holds.  (The
    last branch of the [match] is excluded by the first hypothesis.) *)
Theorem C7_data_unit_negative_start d q :
  registerType q <> Invalid ->
  startAddress q < 0 ->
  data_unit d (Some q)
  = (true,
     Some match registerType q with
          | DiscreteInputs => m_discreteInputs d
          | Coils => m_coils d
          | InputRegisters => m_inputRegisters d
          | HoldingRegisters => m_holdingRegisters d
          | Invalid => q
          end).
Proof.
  intros Hty Hneg. unfold data_unit.
  destruct (registerType q); try congruence; cbn [unit_of];
    (destruct (Z.ltb_spec (startAddress q) 0); [reflexivity | lia]).
Qed.

Lemma C7_data_unit_negative_start_witness :
  data_unit holding_from_2 (Some (mkDataUnit HoldingRegisters (-1) [0; 0; 0; 0; 0; 0; 0]))
  = (true, Some (mkDataUnit HoldingRegisters 2 [10; 11; 12; 13])).
Proof.
  apply (C7_data_unit_negative_start holding_from_2
           (mkDataUnit HoldingRegisters (-1) [0; 0; 0; 0; 0; 0; 0])).
  - discriminate.
  - reflexivity.
Defined.



(** A refused write leaves the whole register map as it was. *)
Lemma setData_element_refused d table address w :
  fst (setData_element d table address w) = false ->
  snd (setData_element d table address w) = d.
Proof.
  unfold setData_element. destruct (unit_of d table) as [unit |]; [| reflexivity].
  destruct (negb (isValid unit) || (address <? startAddress unit)
            || (address >=? to_unsigned (startAddress unit + valueCount unit))); [reflexivity | discriminate].
Qed.

Lemma setData_unit_refused d newData :
  fst (setData_unit d newData) = false -> snd (setData_unit d newData) = d.
Proof.
  unfold setData_unit. destruct (unit_of d (registerType newData)) as [current |]; [| reflexivity].
  destruct (negb (isValid current)); [reflexivity |].
  destruct ((startAddress newData <? startAddress current) || _); [reflexivity |].
  destruct ((startAddress newData + valueCount newData - 1 <? startAddress current) || _);
    [reflexivity | discriminate].
Qed.

(** Both writes are refused outside the bounds they check: the element
    write below the start address and from the unsigned sum of start
    address and count on, the range write outside the table. *)
Lemma setData_element_out_of_bounds d table unit address w :
  unit_of d table = Some unit ->
  address < startAddress unit
  \/ to_unsigned (startAddress unit + valueCount unit) <= address ->
  setData_element d table address w = (false, d).
Proof.
  intros Hu Hout. unfold setData_element. rewrite Hu.
  destruct (negb (isValid unit)); [reflexivity |]. cbn [orb].
  destruct (Z.ltb_spec address (startAddress unit)); [reflexivity |]. cbn [orb].
  destruct (Z.geb_spec address (to_unsigned (startAddress unit + valueCount unit)));
    [reflexivity | lia].
Qed.

Lemma setData_unit_out_of_bounds d newData current :
  unit_of d (registerType newData) = Some current ->
  startAddress newData < startAddress current
  \/ startAddress current + valueCount current < startAddress newData + valueCount newData ->
  setData_unit d newData = (false, d).
Proof.
  intros Hu Hout. unfold setData_unit. rewrite Hu.
  destruct (negb (isValid current)); [reflexivity |].
  destruct (Z.ltb_spec (startAddress newData) (startAddress current)); [reflexivity |].
  cbn [orb].
  destruct (Z.gtb_spec (startAddress newData)
                       (startAddress current + valueCount current - 1)); [reflexivity |].
  destruct (Z.ltb_spec (startAddress newData + valueCount newData - 1)
                       (startAddress current)); [reflexivity |].
  cbn [orb].
  destruct (Z.gtb_spec (startAddress newData + valueCount newData - 1)
                       (startAddress current + valueCount current - 1)); [reflexivity | lia].
Qed.

(** C8: [setData] of a range that lies wholly inside a table whose start
    address is 2 succeeds, but the word of the addressed register 2 keeps
    its value and the word of register 4, outside the range, is replaced:
    the logical address is used as the position in the value sequence. *)
Theorem C8_setData_unit_shifted_by_start_address :
  let newData := mkDataUnit HoldingRegisters 2 [77] in
  let after := snd (setData_unit holding_from_2 newData) in
  fst (setData_unit holding_from_2 newData) = true
  /\ values (m_holdingRegisters after) = [10; 11; 77; 13]
  /\ word_at (m_holdingRegisters holding_from_2) 2 = Some 10
  /\ word_at (m_holdingRegisters after) 2 = Some 10
  /\ word_at (m_holdingRegisters holding_from_2) 4 = Some 12
  /\ word_at (m_holdingRegisters after) 4 = Some 77.
Proof. cbv zeta. repeat split; reflexivity. Qed.

(** ** The dispatcher *)

(** The function codes that reach the hook: all but the eleven that run a
    built-in handler. *)
Lemma processRequest_custom custom d request :
  ~ In (functionCode request)
       [0x01; 0x02; 0x03; 0x04; 0x05; 0x06; 0x07; 0x08; 0x0B; 0x0C; 0x0F] ->
  processRequest custom d request = custom d request.
Proof.
  intros Hnot. unfold processRequest.
  repeat match goal with
         | |- context [?a =? ?b] =>
             destruct (Z.eqb_spec a b) as [E | E];
             [exfalso; apply Hnot; rewrite E; vm_compute; tauto | clear E]
         end.
  reflexivity.
Qed.

(** C1: a Read Discrete Inputs request (0x02) does not reach the hook.  It
    runs the Write Single Coil handler, which sets coil 5 and echoes the
    request, where the default hook answers with the IllegalFunction
    exception for code 0x02 and leaves the coils alone. *)
Theorem C1_read_discrete_inputs_runs_write_single_coil :
  let request := mkPdu FunctionCode.ReadDiscreteInputs [0; 5; 0xFF; 0] in
  QModbusServer_processRequest coils16 request
  = Ok (mkPdu 0x02 [0; 5; 0xFF; 0],
        set_coils coils16 (mkDataUnit Coils 0 (<[5%nat := 0xFF00]> (replicate 16 0))))
  /\ processCustomRequest coils16 request = Ok (mkPdu 0x82 [IllegalFunction], coils16)
  /\ QModbusServer_processRequest coils16 request <> processCustomRequest coils16 request.
Proof. cbv zeta. split; [reflexivity | split; [reflexivity | discriminate]]. Qed.

(** C2: with two coils at addresses 0 and 1, Write Single Coil at address
    2 passes the address check and indexes the value vector one past its
    end; no IllegalDataAddress exception is returned, although the range
    write of the same table refuses that address. *)
Theorem C2_write_single_coil_one_past_the_end :
  let d := mkServer no_table (mkDataUnit Coils 0 [0; 0]) no_table no_table in
  let request := mkPdu FunctionCode.WriteSingleCoil [0; 2; 0xFF; 0] in
  decodeData_u16_u16 request = Ok (2, 0xFF00)
  /\ startAddress (m_coils d) + valueCount (m_coils d) <= 2
  /\ processWriteSingleCoilRequest d request = Fault IndexOutOfRange
  /\ processWriteSingleCoilRequest d request
     <> Ok (QModbusExceptionResponse (functionCode request) IllegalDataAddress, d)
  /\ setData_element d Coils 2 0xFF00 = (false, d).
Proof.
  cbv zeta. split; [reflexivity |]. split; [vm_compute; discriminate |].
  split; [reflexivity |]. split; [discriminate | reflexivity].
Qed.

(** C4: with coils at addresses 2..5, of which 2 and 3 are set, Read Coils
    of the two coils from address 2 answers with both bits clear: it packs
    the words at positions 2 and 3 of the value sequence, not those at
    positions 0 and 1.  Write Multiple Coils of the same range likewise
    overwrites positions 2 and 3, and Read Coils of the coils 4 and 5, which
    the address check accepts, finds no word and answers with no byte. *)
Theorem C4_coil_handlers_index_by_address :
  let read := mkPdu FunctionCode.ReadCoils [0; 2; 0; 2] in
  let write := mkPdu FunctionCode.WriteMultipleCoils [0; 2; 0; 2; 1; 3] in
  word_at (m_coils coils_from_2) 2 = Some 1
  /\ word_at (m_coils coils_from_2) 3 = Some 1
  /\ processReadCoilsRequest coils_from_2 read = Ok (mkPdu 0x01 [1; 0], coils_from_2)
  /\ processWriteMultipleCoilsRequest coils_from_2 write
     = Ok (mkPdu 0x0F [0; 2; 0; 2],
           set_coils coils_from_2 (mkDataUnit Coils 2 [1; 1; 1; 1]))
  /\ processReadCoilsRequest coils_from_2 (mkPdu FunctionCode.ReadCoils [0; 4; 0; 2])
     = Ok (mkPdu 0x01 [0], coils_from_2).
Proof. cbv zeta. repeat split; reflexivity. Qed.

(** ** Frame of a dispatched request *)

Lemma same_other_tables_refl d : same_other_tables d d.
Proof. repeat split. Qed.

Lemma same_other_tables_set_coils d u : same_other_tables d (set_coils d u).
Proof. repeat split. Qed.

Create HintDb frame.
#[local] Hint Resolve same_other_tables_refl same_other_tables_set_coils : frame.

(** Case analysis along a handler: the decoded fields, each guard, each
    fallible step. *)
Ltac handler_step :=
  match goal with
  | |- context [bind ?e _] =>
      let E := fresh "E" in destruct e as [? | ?] eqn:E; cbn [bind]
  | |- context [match ?p with (_, _) => _ end] => destruct p
  | |- context [if ?c then _ else _] =>
      let E := fresh "G" in destruct c eqn:E
  end.

Lemma processReadCoilsRequest_frame d request response d' :
  processReadCoilsRequest d request = Ok (response, d') -> d' = d.
Proof.
  unfold processReadCoilsRequest. repeat handler_step; congruence.
Qed.

Lemma processWriteSingleCoilRequest_frame d request response d' :
  processWriteSingleCoilRequest d request = Ok (response, d') ->
  same_other_tables d d'.
Proof.
  unfold processWriteSingleCoilRequest.
  repeat handler_step; intros [= <- <-]; auto with frame.
Qed.

Lemma processWriteMultipleCoilsRequest_frame d request response d' :
  processWriteMultipleCoilsRequest d request = Ok (response, d') ->
  same_other_tables d d'.
Proof.
  unfold processWriteMultipleCoilsRequest.
  repeat handler_step; intros [= <- <-]; auto with frame.
Qed.

(** C9: a request dispatched by a server with the default hook leaves the
    discrete inputs, the input registers and the holding registers as
    they were. *)
Theorem C9_processRequest_touches_coils_only d request response d' :
  QModbusServer_processRequest d request = Ok (response, d') ->
  same_other_tables d d'.
Proof.
  unfold QModbusServer_processRequest, processRequest. cbv zeta.
  destruct (functionCode request =? FunctionCode.ReadCoils).
  { intros H. apply processReadCoilsRequest_frame in H. subst. auto with frame. }
  destruct (_ || _).
  { apply processWriteSingleCoilRequest_frame. }
  destruct (_ || _).
  { apply processWriteMultipleCoilsRequest_frame. }
  unfold processCustomRequest. intros [= <- <-]. auto with frame.
Qed.

Lemma C9_processRequest_touches_coils_only_witness :
  same_other_tables coils16
    (set_coils coils16 (mkDataUnit Coils 0 (<[5%nat := 0xFF00]> (replicate 16 0)))).
Proof.
  apply (C9_processRequest_touches_coils_only coils16
           (mkPdu FunctionCode.WriteSingleCoil [0; 5; 0xFF; 0])
           (mkPdu 0x05 [0; 5; 0xFF; 0])).
  reflexivity.
Defined.

(** ** Validation in Write Multiple Coils *)

Lemma exception_codes_differ fc ec ec' :
  QModbusExceptionResponse fc ec = QModbusExceptionResponse fc ec' -> ec = ec'.
Proof. unfold QModbusExceptionResponse. congruence. Qed.

Lemma exception_is_not_an_echo fc ec a b :
  QModbusExceptionResponse fc ec <> QModbusResponse_u16_u16 fc a b.
Proof. unfold QModbusExceptionResponse, QModbusResponse_u16_u16, encode16. cbn. congruence. Qed.

(** C6: for a Write Multiple Coils request that decodes to [address],
    [numberOfCoils] and [byteCount], the handler answers with the
    IllegalDataValue exception exactly when the count is below 1, above
    1968, or the byte count is not the rounded-up eighth of the count; and
    whenever it answers with an exception, the server state is the one it
    started from. *)
Theorem C6_write_multiple_coils_validation d request address numberOfCoils byteCount :
  decodeData_u16_u16_u8 request = Ok (address, numberOfCoils, byteCount) ->
  ((exists d', processWriteMultipleCoilsRequest d request
               = Ok (QModbusExceptionResponse (functionCode request) IllegalDataValue, d'))
   <-> (numberOfCoils < 1 \/ numberOfCoils > 1968 \/ byteCount <> ceil_div8 numberOfCoils))
  /\ (forall response d',
        processWriteMultipleCoilsRequest d request = Ok (response, d') ->
        response = QModbusExceptionResponse (functionCode request) IllegalDataValue
        \/ response = QModbusExceptionResponse (functionCode request) IllegalDataAddress ->
        d' = d).
Proof.
  intros Hdec. pose proof (decodeData_u16_u16_u8_range _ _ _ _ Hdec) as (Ha & Hn & Hb).
  unfold processWriteMultipleCoilsRequest. rewrite Hdec. cbn [bind]. cbv zeta.
  destruct (Z.ltb_spec numberOfCoils 1) as [Hlo | Hlo]; cbn [orb].
  { split; [split; [intros _; lia | intros _; eexists; reflexivity] |].
    intros response d' [= <- <-] _. reflexivity. }
  destruct (Z.gtb_spec numberOfCoils 0x07B0) as [Hhi | Hhi]; cbn [orb].
  { split; [split; [intros _; lia | intros _; eexists; reflexivity] |].
    intros response d' [= <- <-] _. reflexivity. }
  rewrite expectedBytes_ceil by lia.
  destruct (Z.eqb_spec (ceil_div8 numberOfCoils) byteCount) as [Heq | Hne]; cbn [negb].
  2:{ split; [split; [intros _; right; right; congruence | intros _; eexists; reflexivity] |].
      intros response d' [= <- <-] _. reflexivity. }
  destruct (_ || _).
  { split.
    - split.
      + intros [d' [=]].
      + intros [? | [? | ?]]; [lia | lia | congruence].
    - intros response d' [= <- <-] _. reflexivity. }
  destruct (unpackCoils _ _ _ _ _) as [vals | f]; cbn [bind].
  - split.
    + split.
      * intros [d' [=]].
      * intros [? | [? | ?]]; [lia | lia | congruence].
    + intros response d' [= <- <-] [H | H]; symmetry in H;
        now apply exception_is_not_an_echo in H.
  - split.
    + split.
      * intros [d' [=]].
      * intros [? | [? | ?]]; [lia | lia | congruence].
    + intros response d' [=].
Qed.

Lemma C6_write_multiple_coils_validation_witness :
  ((exists d', processWriteMultipleCoilsRequest coils16
                 (mkPdu FunctionCode.WriteMultipleCoils [0; 0; 0; 3; 2; 5; 0])
               = Ok (QModbusExceptionResponse FunctionCode.WriteMultipleCoils IllegalDataValue, d'))
   <-> (3 < 1 \/ 3 > 1968 \/ 2 <> ceil_div8 3))
  /\ (forall response d',
        processWriteMultipleCoilsRequest coils16
          (mkPdu FunctionCode.WriteMultipleCoils [0; 0; 0; 3; 2; 5; 0]) = Ok (response, d') ->
        response = QModbusExceptionResponse FunctionCode.WriteMultipleCoils IllegalDataValue
        \/ response = QModbusExceptionResponse FunctionCode.WriteMultipleCoils IllegalDataAddress ->
        d' = coils16).
Proof.
  apply (C6_write_multiple_coils_validation coils16
           (mkPdu FunctionCode.WriteMultipleCoils [0; 0; 0; 3; 2; 5; 0]) 0 3 2).
  reflexivity.
Defined.

(** ** QVector element access *)

Lemma in_range_of_nat (v : list Z) (i : nat) :
  (i < length v)%nat -> QVector.in_range v (Z.of_nat i) = true.
Proof.
  intros H. unfold QVector.in_range, QVector.count.
  apply andb_true_iff. split; [apply Z.leb_le | apply Z.ltb_lt]; lia.
Qed.

Lemma get_Ok (v : list Z) (i : nat) w :
  v !! i = Some w -> QVector.get v (Z.of_nat i) = Ok w.
Proof.
  intros H. unfold QVector.get.
  rewrite in_range_of_nat by (eapply lookup_lt_Some; eassumption).
  now rewrite Nat2Z.id, H.
Qed.

Lemma set_Ok (v : list Z) (i : nat) w :
  (i < length v)%nat -> QVector.set v (Z.of_nat i) w = Ok (<[i := w]> v).
Proof.
  intros H. unfold QVector.set. rewrite in_range_of_nat by assumption.
  now rewrite Nat2Z.id.
Qed.

(** ** Packing: the loops of Read Coils *)

Lemma assign_testbit byte pos b i :
  0 <= pos -> 0 <= i ->
  Z.testbit (bitset8.assign byte pos b) i = if pos =? i then b else Z.testbit byte i.
Proof.
  intros Hpos Hi. unfold bitset8.assign. destruct b.
  - rewrite Z.setbit_eqb by assumption. destruct (pos =? i); reflexivity.
  - rewrite Z.clearbit_eqb. destruct (pos =? i); cbn; [apply andb_false_r | apply andb_true_r].
Qed.

Lemma pack_bits_testbit_below ws : forall currentBit byte i,
  0 <= i < currentBit ->
  Z.testbit (pack_bits currentBit ws byte) i = Z.testbit byte i.
Proof.
  induction ws as [| w ws IH]; intros currentBit byte i Hi; cbn [pack_bits]; [reflexivity |].
  rewrite IH by lia. rewrite assign_testbit by lia.
  destruct (Z.eqb_spec currentBit i); [lia | reflexivity].
Qed.

Lemma pack_bits_testbit ws : forall currentBit byte (k : nat) w,
  0 <= currentBit ->
  ws !! k = Some w ->
  Z.testbit (pack_bits currentBit ws byte) (currentBit + Z.of_nat k) = to_bool w.
Proof.
  induction ws as [| w0 ws IH]; intros currentBit byte k w Hcb Hk; [discriminate |].
  cbn [pack_bits]. destruct k as [| k].
  - injection Hk as ->. rewrite Z.add_0_r.
    rewrite pack_bits_testbit_below by lia. rewrite assign_testbit by lia.
    now rewrite Z.eqb_refl.
  - cbn in Hk.
    replace (currentBit + Z.of_nat (S k)) with (currentBit + 1 + Z.of_nat k) by lia.
    apply IH; [lia | assumption].
Qed.

Lemma readCoils_bits_spec n : forall currentBit data (address : nat) byte,
  (address + n <= length data)%nat ->
  Z.of_nat (address + n) < 65536 ->
  readCoils_bits n currentBit data (Z.of_nat address) byte
  = Ok (pack_bits currentBit (take n (drop address data)) byte, Z.of_nat (address + n)).
Proof.
  induction n as [| n IH]; intros currentBit data address byte Hlen Hmax.
  - cbn. now rewrite Nat.add_0_r.
  - cbn [readCoils_bits].
    destruct (lookup_lt_is_Some_2 data address) as [w Hw]; [lia |].
    rewrite (get_Ok _ _ _ Hw). cbn [bind].
    rewrite quint16_small by lia.
    replace (Z.of_nat address + 1) with (Z.of_nat (S address)) by lia.
    rewrite IH by lia.
    rewrite (drop_S _ _ _ Hw). cbn [take pack_bits].
    do 3 f_equal. lia.
Qed.

Lemma readCoils_bytes_spec n : forall data (address : nat) bytes,
  (address + 8 * n <= length data)%nat ->
  Z.of_nat (address + 8 * n) < 65536 ->
  readCoils_bytes n data (Z.of_nat address) bytes
  = Ok (bytes ++ pack_groups n (drop address data)).
Proof.
  induction n as [| n IH]; intros data address bytes Hlen Hmax.
  - cbn. now rewrite app_nil_r.
  - cbn [readCoils_bytes]. rewrite readCoils_bits_spec by lia. cbn [bind].
    rewrite IH by lia. cbn [pack_groups].
    rewrite drop_drop. rewrite <- app_assoc. reflexivity.
Qed.

(** ** Unpacking: the loops of Write Multiple Coils *)

Lemma length_byte_bits n byte : length (byte_bits n byte) = n.
Proof. unfold byte_bits. now rewrite length_map, length_seq. Qed.

Lemma byte_bits_S n byte :
  byte_bits (S n) byte = byte_bits n byte ++ [of_bool (bitset8.test byte (Z.of_nat n))].
Proof. unfold byte_bits. rewrite seq_S, map_app. reflexivity. Qed.

Lemma quint16_pred (c : nat) :
  (1 <= c)%nat -> Z.of_nat c <= 65536 ->
  quint16 (quint16 (Z.of_nat c) - 1) = Z.of_nat (c - 1).
Proof.
  intros H1 H2. unfold quint16. rewrite Zminus_mod_idemp_l.
  rewrite Z.mod_small by lia. lia.
Qed.

Lemma writeCoils_bits_spec n : forall currentByte vals (c : nat),
  (n <= c <= length vals)%nat ->
  Z.of_nat c <= 65536 ->
  writeCoils_bits n currentByte vals (quint16 (Z.of_nat c))
  = Ok (take (c - n) vals ++ byte_bits n currentByte ++ drop c vals,
        quint16 (Z.of_nat (c - n))).
Proof.
  induction n as [| n IH]; intros currentByte vals c Hc Hmax.
  - cbn [writeCoils_bits byte_bits seq map app]. rewrite Nat.sub_0_r.
    now rewrite take_drop.
  - cbn [writeCoils_bits]. rewrite quint16_pred by lia.
    rewrite set_Ok by lia. cbn [bind].
    rewrite <- (quint16_small (Z.of_nat (c - 1))) at 1 by lia.
    rewrite IH by (rewrite ?length_insert; lia).
    rewrite take_insert_ge by lia.
    rewrite byte_bits_S, <- !app_assoc.
    replace (c - 1 - n)%nat with (c - S n)%nat by lia.
    do 3 f_equal.
    rewrite (insert_take_drop vals (c - 1)) by lia.
    rewrite drop_app_length' by (rewrite length_take; lia).
    cbn [app]. do 2 f_equal. f_equal. lia.
Qed.

Lemma length_unpack_block bytes : forall currentBit,
  length (unpack_block bytes currentBit)
  = match bytes with [] => O | _ :: bytes' => (8 * length bytes' + currentBit)%nat end.
Proof.
  induction bytes as [| b bytes IH]; intros currentBit; [reflexivity |].
  cbn [unpack_block]. rewrite length_app, length_byte_bits, IH.
  destruct bytes; cbn [length]; lia.
Qed.

Lemma writeCoils_bytes_spec bytes : forall (currentBit : nat) vals (c : nat),
  (length (unpack_block bytes currentBit) <= c <= length vals)%nat ->
  Z.of_nat c <= 65536 ->
  writeCoils_bytes bytes (Z.of_nat currentBit) vals (quint16 (Z.of_nat c))
  = Ok (take (c - length (unpack_block bytes currentBit)) vals
        ++ unpack_block bytes currentBit ++ drop c vals).
Proof.
  induction bytes as [| b bytes IH]; intros currentBit vals c Hc Hmax.
  - cbn. rewrite Nat.sub_0_r. now rewrite take_drop.
  - cbn [writeCoils_bytes unpack_block] in *.
    rewrite length_app, length_byte_bits in Hc |- *.
    rewrite Nat2Z.id. rewrite writeCoils_bits_spec by lia. cbn [bind].
    change 8 with (Z.of_nat 8).
    rewrite IH by (rewrite ?length_app, ?length_take, ?length_byte_bits, ?length_drop; lia).
    f_equal. rewrite <- !app_assoc.
    rewrite take_app_le by (rewrite length_take; lia).
    rewrite take_take.
    replace ((c - currentBit - length (unpack_block bytes 8)) `min` (c - currentBit))%nat
      with (c - (length (unpack_block bytes 8) + currentBit))%nat by lia.
    do 2 f_equal.
    rewrite drop_app_length' by (rewrite length_take; lia).
    reflexivity.
Qed.

(** ** Packing followed by unpacking *)

Lemma quint8_testbit z i : 0 <= i < 8 -> Z.testbit (quint8 z) i = Z.testbit z i.
Proof.
  intros Hi. unfold quint8. change 256 with (2 ^ 8).
  apply Z.mod_pow2_bits_low. lia.
Qed.

Lemma as_bit_of_bool b : as_bit (of_bool b) = of_bool b.
Proof. destruct b; reflexivity. Qed.

Lemma length_pack_groups n : forall ws, length (pack_groups n ws) = n.
Proof. induction n as [| n IH]; intros ws; cbn; [reflexivity | now rewrite IH]. Qed.

(** The low [k] bits of a packed byte are the first [k] words of its group. *)
Lemma byte_bits_pack_bits k : forall group,
  (k <= length group)%nat -> (k <= 8)%nat ->
  byte_bits k (quint8 (quint8 (pack_bits 0 group 0))) = map as_bit (take k group).
Proof.
  induction k as [| k IH]; intros group Hlen H8; [reflexivity |].
  destruct (lookup_lt_is_Some_2 group k) as [w Hw]; [lia |].
  rewrite byte_bits_S, (take_S_r _ _ _ Hw), map_app, IH by lia.
  f_equal. cbn [map]. unfold bitset8.test, as_bit.
  rewrite !quint8_testbit by lia.
  now rewrite <- (pack_bits_testbit group 0 0 k w) by (lia || assumption).
Qed.

Lemma unpack_block_snoc bytes : forall currentBit b,
  bytes <> [] ->
  unpack_block (bytes ++ [b]) currentBit = byte_bits 8 b ++ unpack_block bytes currentBit.
Proof.
  induction bytes as [| x bytes IH]; intros currentBit b Hne; [congruence |].
  cbn [app unpack_block]. destruct bytes as [| y bytes].
  - reflexivity.
  - rewrite IH by discriminate. now rewrite app_assoc.
Qed.

(** Unpacking, last byte first, the bytes of [m + 1] packed groups gives
    back the reported form of the words packed, up to the [currentBit]
    words taken from the last group. *)
Lemma unpack_block_pack_groups m : forall ws currentBit,
  (currentBit <= 8)%nat ->
  (8 * S m <= length ws)%nat ->
  unpack_block (map quint8 (rev (pack_groups (S m) ws))) currentBit
  = map as_bit (take (8 * m + currentBit) ws).
Proof.
  induction m as [| m IH]; intros ws currentBit Hcb Hlen.
  - cbn [pack_groups rev map app unpack_block Nat.mul Nat.add].
    rewrite byte_bits_pack_bits by (rewrite ?length_take; lia).
    rewrite take_take. do 2 f_equal. lia.
  - change (pack_groups (S (S m)) ws)
      with (quint8 (pack_bits 0 (take 8 ws) 0) :: pack_groups (S m) (drop 8 ws)).
    cbn [rev]. rewrite map_app. cbn [map].
    rewrite unpack_block_snoc.
    2:{ intros E. apply (f_equal length) in E.
        rewrite length_map, length_rev, length_pack_groups in E. discriminate E. }
    rewrite IH by (rewrite ?length_drop; lia).
    rewrite byte_bits_pack_bits by (rewrite ?length_take; lia).
    rewrite take_take, <- map_app. f_equal.
    replace (8 `min` 8)%nat with 8%nat by reflexivity.
    rewrite take_take_drop. f_equal. lia.
Qed.

Lemma ceil_div8_bounds n : 1 <= n -> 1 <= ceil_div8 n /\ 8 * (ceil_div8 n - 1) < n <= 8 * ceil_div8 n.
Proof.
  intros Hn. unfold ceil_div8.
  pose proof (Z.div_mod (n + 7) 8). pose proof (Z.mod_pos_bound (n + 7) 8). lia.
Qed.

(** [packCoils] on a range of [numberOfCoils] words: the byte count is the
    rounded-up eighth, and the bytes are those of the groups of the range
    extended by zero words. *)
Lemma packCoils_spec data :
  1 <= QVector.count data <= 0x07D0 ->
  exists k,
    (8 * Z.to_nat (ceil_div8 (QVector.count data)) <= length (data ++ replicate k 0%Z))%nat
    /\ packCoils data (QVector.count data)
       = Ok (ceil_div8 (QVector.count data),
             pack_groups (Z.to_nat (ceil_div8 (QVector.count data))) (data ++ replicate k 0)).
Proof.
  intros Hn. unfold packCoils.
  pose proof (ceil_div8_bounds (QVector.count data) ltac:(lia)) as (Hc1 & Hc2 & Hc3).
  pose proof (expectedBytes_ceil (QVector.count data) ltac:(lia)) as He.
  unfold QVector.count in *.
  pose proof (Z.div_mod (Z.of_nat (length data)) 8 ltac:(lia)) as Hdm.
  destruct (Z.eqb_spec (Z.of_nat (length data) mod 8) 0) as [Hm | Hm]; cbn [negb] in *.
  2:{ set (bc := ceil_div8 (Z.of_nat (length data))) in *. clearbody bc. rewrite He.
    exists (Z.to_nat (bc * 8 - Z.of_nat (length data))
            + Z.to_nat (bc * 8 - Z.of_nat (length data)))%nat.
    split; [rewrite length_app, length_replicate; lia |].
    unfold QVector.insert, QVector.resize.
    rewrite (take_ge data) by lia.
    rewrite Nat2Z.id, take_app_length, drop_app_length.
    replace (Z.to_nat (bc * 8) - length data)%nat
      with (Z.to_nat (bc * 8 - Z.of_nat (length data))) by lia.
    rewrite <- replicate_add.
    rewrite (readCoils_bytes_spec _ _ 0%nat)
      by (rewrite ?length_app, ?length_replicate; lia).
    reflexivity. }
  set (bc := ceil_div8 (Z.of_nat (length data))) in *. clearbody bc. rewrite He.
  exists 0%nat. cbn [replicate]. rewrite app_nil_r.
  split; [lia |].
  rewrite (readCoils_bytes_spec _ _ 0%nat) by lia.
  reflexivity.
Qed.

(** C5: for between 1 and 1968 boolean values, the bytes Read Coils packs
    them into number the rounded-up eighth of the count, and the unpacking
    of Write Multiple Coils, run on these bytes at any address of a table
    that holds the range, stores exactly the original values there and
    changes no other word. *)
Theorem C5_pack_unpack_roundtrip (bs : list bool) (vals : list Z) (address : Z) :
  1 <= Z.of_nat (length bs) <= 1968 ->
  0 <= address ->
  address + Z.of_nat (length bs) <= QVector.count vals ->
  address + Z.of_nat (length bs) <= 65536 ->
  exists bytes,
    packCoils (map of_bool bs) (Z.of_nat (length bs))
    = Ok (ceil_div8 (Z.of_nat (length bs)), bytes)
    /\ QVector.count bytes = ceil_div8 (Z.of_nat (length bs))
    /\ unpackCoils bytes address (Z.of_nat (length bs)) (ceil_div8 (Z.of_nat (length bs))) vals
       = Ok (take (Z.to_nat address) vals ++ map of_bool bs
             ++ drop (Z.to_nat (address + Z.of_nat (length bs))) vals).
Proof.
  intros Hn Ha Hfit Hmax. unfold QVector.count in Hfit.
  assert (Hcount : QVector.count (map of_bool bs) = Z.of_nat (length bs))
    by (unfold QVector.count; now rewrite length_map).
  destruct (packCoils_spec (map of_bool bs)) as (k & Hlen & Hpack);
    [rewrite Hcount; lia |].
  rewrite Hcount in Hlen, Hpack.
  pose proof (ceil_div8_bounds (Z.of_nat (length bs)) ltac:(lia)) as (Hc1 & Hc2 & Hc3).
  set (bc := ceil_div8 (Z.of_nat (length bs))) in *. clearbody bc.
  eexists. split; [exact Hpack |].
  split; [unfold QVector.count; rewrite length_pack_groups; lia |].
  unfold unpackCoils.
  destruct (Z.to_nat bc) as [| m] eqn:Hm; [lia |].
  set (currentBit := Z.to_nat (8 - (bc * 8 - Z.of_nat (length bs)))).
  assert (Hblock :
    unpack_block (map quint8 (rev (pack_groups (S m) (map of_bool bs ++ replicate k 0))))
                 currentBit = map of_bool bs).
  { rewrite unpack_block_pack_groups by (subst currentBit; lia).
    rewrite take_app_length' by (rewrite length_map; subst currentBit; lia).
    rewrite map_map. apply map_ext. intros b. apply as_bit_of_bool. }
  replace (8 - (bc * 8 - Z.of_nat (length bs))) with (Z.of_nat currentBit)
    by (subst currentBit; lia).
  replace (address + Z.of_nat (length bs))
    with (Z.of_nat (Z.to_nat address + length bs)) by lia.
  rewrite writeCoils_bytes_spec by (rewrite ?Hblock, ?length_map; lia).
  rewrite Hblock, length_map, Nat2Z.id.
  replace (Z.to_nat address + length bs - length bs)%nat with (Z.to_nat address) by lia.
  reflexivity.
Qed.

Lemma C5_pack_unpack_roundtrip_witness :
  exists bytes,
    packCoils (map of_bool [true; false; true; true; false; false; false; true; true; true])
              (Z.of_nat 10)
    = Ok (ceil_div8 (Z.of_nat 10), bytes)
    /\ QVector.count bytes = ceil_div8 (Z.of_nat 10)
    /\ unpackCoils bytes 3 (Z.of_nat 10) (ceil_div8 (Z.of_nat 10)) (replicate 16 7)
       = Ok (take (Z.to_nat 3) (replicate 16 7)
             ++ map of_bool [true; false; true; true; false; false; false; true; true; true]
             ++ drop (Z.to_nat (3 + Z.of_nat 10)) (replicate 16 7)).
Proof.
  apply (C5_pack_unpack_roundtrip
           [true; false; true; true; false; false; false; true; true; true]
           (replicate 16 7) 3).
  - simpl. lia.
  - lia.
  - vm_compute. discriminate.
  - simpl. lia.
Defined.

(** ** The words the coil handlers store *)

Lemma is_bit_of_bool b : is_bit (of_bool b).
Proof. destruct b; [right | left]; reflexivity. Qed.

Lemma only_bits_stored_refl vals : only_bits_stored vals vals.
Proof. split; [reflexivity | intros i w H; now left]. Qed.

Lemma only_bits_stored_trans a b c :
  only_bits_stored a b -> only_bits_stored b c -> only_bits_stored a c.
Proof.
  intros [Hl1 H1] [Hl2 H2]. split; [congruence |].
  intros i w Hw. destruct (H2 i w Hw) as [Hb | Hbit]; [now apply H1 | now right].
Qed.

Lemma only_bits_stored_insert vals (i : nat) b :
  only_bits_stored vals (<[i := of_bool b]> vals).
Proof.
  split; [apply length_insert |].
  intros j w Hw. destruct (decide (i = j)) as [-> | Hne].
  - destruct (decide (j < length vals)%nat) as [Hlt | Hge].
    + rewrite list_lookup_insert_eq in Hw by assumption.
      injection Hw as <-. right. apply is_bit_of_bool.
    + rewrite list_insert_ge in Hw by lia. now left.
  - rewrite list_lookup_insert_ne in Hw by assumption. now left.
Qed.

Lemma set_only_bits_stored vals coil b vals' :
  QVector.set vals coil (of_bool b) = Ok vals' -> only_bits_stored vals vals'.
Proof.
  unfold QVector.set. destruct (QVector.in_range vals coil); [| discriminate].
  intros [= <-]. apply only_bits_stored_insert.
Qed.

Lemma writeCoils_bits_only_bits n : forall currentByte vals coil vals' coil',
  writeCoils_bits n currentByte vals coil = Ok (vals', coil') ->
  only_bits_stored vals vals'.
Proof.
  induction n as [| n IH]; intros currentByte vals coil vals' coil'; cbn [writeCoils_bits].
  - intros [= <- _]. apply only_bits_stored_refl.
  - destruct (QVector.set vals _ _) as [vals1 | f] eqn:Hset; cbn [bind]; [| discriminate].
    intros Hrest. eapply only_bits_stored_trans.
    + eapply set_only_bits_stored. exact Hset.
    + eapply IH. exact Hrest.
Qed.

Lemma writeCoils_bytes_only_bits bytes : forall currentBit vals coil vals',
  writeCoils_bytes bytes currentBit vals coil = Ok vals' ->
  only_bits_stored vals vals'.
Proof.
  induction bytes as [| b bytes IH]; intros currentBit vals coil vals'; cbn [writeCoils_bytes].
  - intros [= <-]. apply only_bits_stored_refl.
  - destruct (writeCoils_bits _ _ _ _) as [[vals1 coil1] | f] eqn:Hbits; cbn [bind];
      [| discriminate].
    intros Hrest. eapply only_bits_stored_trans.
    + eapply writeCoils_bits_only_bits. exact Hbits.
    + eapply IH. exact Hrest.
Qed.

Lemma only_bits_stored_coil_words old new :
  Forall is_coil_word old -> only_bits_stored old new -> Forall is_coil_word new.
Proof.
  intros Hold [_ Hnew]. apply Forall_lookup. intros i w Hw.
  destruct (Hnew i w Hw) as [Ho | [-> | ->]].
  - eapply Forall_lookup_1; eassumption.
  - left. reflexivity.
  - right. left. reflexivity.
Qed.

(** A successful Write Single Coil stores the value field of the request
    as it is, 0x0000 or 0xFF00, at position [address] of the sequence. *)
Lemma processWriteSingleCoilRequest_stores d request address value response d' :
  decodeData_u16_u16 request = Ok (address, value) ->
  processWriteSingleCoilRequest d request = Ok (response, d') ->
  (exists ec, response = QModbusExceptionResponse (functionCode request) ec) /\ d' = d
  \/ response = QModbusResponse_u16_u16 (functionCode request) address value
     /\ (value = 0 \/ value = 0xFF00)
     /\ QVector.in_range (values (m_coils d)) address = true
     /\ d' = set_coils d (setValues (m_coils d)
                            (<[Z.to_nat address := value]> (values (m_coils d)))).
Proof.
  intros Hdec. unfold processWriteSingleCoilRequest. rewrite Hdec. cbn [bind].
  destruct (Z.eqb_spec value 0x0000) as [H0 | H0];
    destruct (Z.eqb_spec value 0xFF00) as [H1 | H1]; cbn [negb andb];
    try (intros [= <- <-]; left; split; [eexists; reflexivity | reflexivity]).
  all: destruct (_ || _);
    [intros [= <- <-]; left; split; [eexists; reflexivity | reflexivity] |].
  all: unfold QVector.set; destruct (QVector.in_range _ _); cbn [bind]; [| discriminate].
  all: intros [= <- <-]; right; cbn; repeat split; tauto.
Qed.

(** A successful Write Multiple Coils replaces words by bits only. *)
Lemma processWriteMultipleCoilsRequest_stores d request response d' :
  processWriteMultipleCoilsRequest d request = Ok (response, d') ->
  only_bits_stored (values (m_coils d)) (values (m_coils d')).
Proof.
  unfold processWriteMultipleCoilsRequest.
  destruct (decodeData_u16_u16_u8 request) as [[[address numberOfCoils] byteCount] | f];
    cbn [bind]; [| discriminate].
  cbv zeta.
  destruct (_ || _); [intros [= _ <-]; apply only_bits_stored_refl |].
  destruct (_ || _); [intros [= _ <-]; apply only_bits_stored_refl |].
  destruct (unpackCoils _ _ _ _ _) as [vals | f] eqn:Hun; cbn [bind]; [| discriminate].
  intros [= _ <-]. cbn. unfold unpackCoils in Hun.
  eapply writeCoils_bytes_only_bits. exact Hun.
Qed.

(** C3: the claim has every dispatched request keep each coil word 0 or
    1, a successful Write Single Coil of 0xFF00 storing the word 1.  The
    code does not: on sixteen cleared coils, which are all bits, a Write
    Single Coil of 0xFF00 to coil 5 is answered by the echo and leaves the
    word 0xFF00 there, which is neither 0 nor 1, while Write Multiple
    Coils setting the same coil leaves the word 1. *)
Lemma C3_write_single_coil_stores_0xFF00 :
  let request := mkPdu FunctionCode.WriteSingleCoil [0; 5; 0xFF; 0] in
  let request' := mkPdu FunctionCode.WriteMultipleCoils [0; 5; 0; 1; 1; 1] in
  coils_are_bits coils16
  /\ (exists d',
        QModbusServer_processRequest coils16 request
        = Ok (QModbusResponse_u16_u16 FunctionCode.WriteSingleCoil 5 0xFF00, d')
        /\ values (m_coils d') !! 5%nat = Some 0xFF00
        /\ ~ coils_are_bits d')
  /\ (exists d',
        QModbusServer_processRequest coils16 request'
        = Ok (QModbusResponse_u16_u16 FunctionCode.WriteMultipleCoils 5 1, d')
        /\ values (m_coils d') !! 5%nat = Some 1
        /\ coils_are_bits d').
Proof.
  cbv zeta. split; [| split].
  - unfold coils_are_bits. cbn. repeat constructor.
  - eexists. split; [reflexivity |]. split; [reflexivity |].
    unfold coils_are_bits. cbn. intros H.
    apply (Forall_lookup_1 _ _ 5%nat 0xFF00) in H; [| reflexivity].
    destruct H as [H | H]; discriminate H.
  - eexists. split; [reflexivity |]. split; [reflexivity |].
    unfold coils_are_bits.
    repeat (constructor; [vm_compute; tauto |]). constructor.
Qed.

(** What the handlers do keep: every request dispatched with the default
    hook that returns a response keeps each coil word among 0, 1 and
    0xFF00; a Write Single Coil answered by the echo on a table that
    starts at address 0 has the value 0x0000 or 0xFF00 and stores that
    value field itself as the word of the addressed coil, changing no
    other word; and a Write Multiple Coils that returns a response changes
    words into 0 or 1 only. *)
Theorem coil_words_preserved :
  (forall d request response d',
     coils_are_coil_words d ->
     QModbusServer_processRequest d request = Ok (response, d') ->
     coils_are_coil_words d')
  /\ (forall d request address value d',
        startAddress (m_coils d) = 0 ->
        decodeData_u16_u16 request = Ok (address, value) ->
        processWriteSingleCoilRequest d request
        = Ok (QModbusResponse_u16_u16 (functionCode request) address value, d') ->
        (value = 0 \/ value = 0xFF00)
        /\ word_at (m_coils d') address = Some value
        /\ values (m_coils d') = <[Z.to_nat address := value]> (values (m_coils d)))
  /\ (forall d request response d',
        processWriteMultipleCoilsRequest d request = Ok (response, d') ->
        only_bits_stored (values (m_coils d)) (values (m_coils d'))).
Proof.
  assert (Hsingle : forall d request response d',
             coils_are_coil_words d ->
             processWriteSingleCoilRequest d request = Ok (response, d') ->
             coils_are_coil_words d').
  { intros d request response d' Hinv Hrun.
    destruct (decodeData_u16_u16 request) as [[address value] | f] eqn:Hdec.
    2:{ unfold processWriteSingleCoilRequest in Hrun. rewrite Hdec in Hrun. discriminate. }
    destruct (processWriteSingleCoilRequest_stores _ _ _ _ _ _ Hdec Hrun)
      as [[_ ->] | (_ & Hval & _ & ->)]; [assumption |].
    unfold coils_are_coil_words. cbn. apply Forall_insert; [assumption |].
    unfold is_coil_word. tauto. }
  split; [| split].
  - intros d request response d' Hinv.
    unfold QModbusServer_processRequest, processRequest. cbv zeta.
    destruct (functionCode request =? FunctionCode.ReadCoils).
    { intros H. apply processReadCoilsRequest_frame in H. now subst. }
    destruct (_ || _); [now apply Hsingle |].
    destruct (_ || _).
    { intros H. apply processWriteMultipleCoilsRequest_stores in H.
      eapply only_bits_stored_coil_words; eassumption. }
    unfold processCustomRequest. now intros [= _ <-].
  - intros d request address value d' Hstart Hdec Hrun.
    destruct (processWriteSingleCoilRequest_stores _ _ _ _ _ _ Hdec Hrun)
      as [[[ec Hec] _] | (_ & Hval & Hin & ->)].
    { symmetry in Hec. now apply exception_is_not_an_echo in Hec. }
    split; [assumption |]. split; [| reflexivity].
    unfold QVector.in_range, QVector.count in Hin.
    apply andb_true_iff in Hin as [Hlo Hhi].
    apply Z.leb_le in Hlo. apply Z.ltb_lt in Hhi.
    unfold word_at. cbn. rewrite Hstart.
    destruct (Z.ltb_spec address 0); [lia |].
    rewrite Z.sub_0_r. apply list_lookup_insert_eq. lia.
  - intros d request response d'. apply processWriteMultipleCoilsRequest_stores.
Qed.

Lemma coil_words_preserved_witness :
  coils_are_coil_words
    (set_coils coils16 (mkDataUnit Coils 0 (<[5%nat := 0xFF00]> (replicate 16 0)))).
Proof.
  apply (proj1 coil_words_preserved coils16
           (mkPdu FunctionCode.WriteSingleCoil [0; 5; 0xFF; 0])
           (mkPdu 0x05 [0; 5; 0xFF; 0])).
  - unfold coils_are_coil_words. cbn. repeat constructor.
  - reflexivity.
Defined.

(** ** Tables that start at address 0

    With a start address of 0 the position of a word in the value sequence
    is its logical address, and the accessors and handlers act on the
    addressed range. *)

Lemma setValue_in_range u (i : nat) w :
  (i < length (values u))%nat ->
  setValue u (Z.of_nat i) w = setValues u (<[i := w]> (values u)).
Proof.
  intros H. unfold setValue. rewrite in_range_of_nat by assumption. now rewrite Nat2Z.id.
Qed.

Lemma value_lookup u (i : nat) w : values u !! i = Some w -> value u (Z.of_nat i) = w.
Proof.
  intros H. unfold value, QVector.value.
  rewrite in_range_of_nat by (eapply lookup_lt_Some; eassumption).
  now rewrite Nat2Z.id, H.
Qed.

Lemma setData_loop_spec newData n : forall (i k : nat) current,
  (i + n <= length (values current))%nat ->
  (k + n <= length (values newData))%nat ->
  Z.of_nat i - startAddress newData = Z.of_nat k ->
  setData_loop n (Z.of_nat i) newData current
  = setValues current (take i (values current) ++ take n (drop k (values newData))
                       ++ drop (i + n) (values current)).
Proof.
  induction n as [| n IH]; intros i k current Hi Hk Hik.
  - cbn [setData_loop]. rewrite take_0, app_nil_l, Nat.add_0_r, take_drop.
    destruct current; reflexivity.
  - cbn [setData_loop]. rewrite Hik.
    destruct (lookup_lt_is_Some_2 (values newData) k) as [w Hw]; [lia |].
    rewrite (value_lookup _ _ _ Hw), setValue_in_range by lia.
    replace (Z.of_nat i + 1) with (Z.of_nat (S i)) by lia.
    rewrite (IH (S i) (S k)) by (cbn [values setValues]; rewrite ?length_insert; lia).
    cbn [values setValues]. unfold setValues. cbn [registerType startAddress]. f_equal.
    rewrite (drop_S _ _ _ Hw). cbn [take].
    rewrite (insert_take_drop (values current) i) by lia.
    assert (E : take i (values current) ++ w :: drop (S i) (values current)
                = (take i (values current) ++ [w]) ++ drop (S i) (values current))
      by now rewrite <- app_assoc.
    rewrite E. clear E.
    rewrite take_app_length' by (rewrite length_app, length_take_le; cbn [length]; lia).
    replace (S i + n)%nat with (S i + n + 0)%nat at 1 by lia.
    replace (S i + n + 0)%nat with (length (take i (values current) ++ [w]) + n)%nat
      by (rewrite length_app, length_take_le; cbn [length]; lia).
    rewrite drop_app_add, drop_drop, <- !app_assoc. cbn [app].
    do 4 f_equal. lia.
Qed.

(** A range write inside a table that starts at 0 overwrites the addressed
    words with the new values and nothing else. *)
Lemma setData_unit_from_zero d newData current :
  unit_of d (registerType newData) = Some current ->
  isValid current = true ->
  startAddress current = 0 ->
  0 <= startAddress newData ->
  1 <= valueCount newData ->
  startAddress newData + valueCount newData <= valueCount current ->
  setData_unit d newData
  = (true,
     set_unit d (registerType newData)
       (setValues current
          (take (Z.to_nat (startAddress newData)) (values current)
           ++ values newData
           ++ drop (Z.to_nat (startAddress newData + valueCount newData)) (values current)))).
Proof.
  intros Hcur Hvalid Hzero Hs Hn Hfit. unfold setData_unit. rewrite Hcur, Hvalid, Hzero.
  cbn [negb]. unfold valueCount, QVector.count in *.
  destruct (Z.ltb_spec (startAddress newData) 0); [lia |]. cbn [orb].
  destruct (Z.gtb_spec (startAddress newData) (0 + Z.of_nat (length (values current)) - 1));
    [lia |].
  destruct (Z.ltb_spec (startAddress newData + Z.of_nat (length (values newData)) - 1) 0);
    [lia |]. cbn [orb].
  destruct (Z.gtb_spec (startAddress newData + Z.of_nat (length (values newData)) - 1)
                       (0 + Z.of_nat (length (values current)) - 1)); [lia |].
  do 2 f_equal. rewrite Nat2Z.id.
  rewrite <- (Z2Nat.id (startAddress newData)) at 1 by lia.
  rewrite (setData_loop_spec newData _ _ 0%nat) by lia.
  cbn [drop]. rewrite firstn_all. do 4 f_equal. lia.
Qed.

(** Read Coils on a table that starts at 0: the response carries the
    rounded-up eighth of the count and the packed groups of the addressed
    words, extended by zero words. *)
Lemma processReadCoilsRequest_from_zero d request address numberOfCoils :
  startAddress (m_coils d) = 0 ->
  decodeData_u16_u16 request = Ok (address, numberOfCoils) ->
  1 <= numberOfCoils <= 2000 ->
  address + numberOfCoils <= valueCount (m_coils d) ->
  exists k,
    processReadCoilsRequest d request
    = Ok (QModbusResponse_u8_bytes (functionCode request) (ceil_div8 numberOfCoils)
            (pack_groups (Z.to_nat (ceil_div8 numberOfCoils))
               (take (Z.to_nat numberOfCoils) (drop (Z.to_nat address) (values (m_coils d)))
                ++ replicate k 0)),
          d).
Proof.
  intros Hzero Hdec Hn Hfit.
  pose proof (decodeData_u16_u16_range _ _ _ Hdec) as [Ha _].
  unfold valueCount, QVector.count in Hfit.
  assert (Hcount : QVector.count (QVector.mid (values (m_coils d)) address numberOfCoils)
                   = numberOfCoils).
  { unfold QVector.count, QVector.mid. rewrite length_take_le by (rewrite length_drop; lia).
    lia. }
  destruct (packCoils_spec (QVector.mid (values (m_coils d)) address numberOfCoils))
    as (k & _ & Hpack); [rewrite Hcount; lia |].
  rewrite Hcount in Hpack. exists k.
  unfold processReadCoilsRequest. rewrite Hdec. cbn [bind]. rewrite Hzero.
  rewrite (to_unsigned_nonneg (0 + valueCount (m_coils d)))
    by (unfold valueCount, QVector.count; lia).
  destruct (Z.ltb_spec numberOfCoils 1); [lia |]. cbn [orb].
  destruct (Z.gtb_spec numberOfCoils 0x07D0); [lia |].
  destruct (Z.gtb_spec 0 address); [lia |]. cbn [orb].
  unfold valueCount, QVector.count.
  destruct (Z.ltb_spec (0 + Z.of_nat (length (values (m_coils d)))) (address + numberOfCoils));
    [lia |].
  rewrite Hpack. reflexivity.
Qed.

(** The block stored for a payload: eight bits of every byte but the last,
    in payload order, then the remaining bits of the last byte. *)
Lemma unpack_block_rev payload : forall last currentBit,
  unpack_block (rev (payload ++ [last])) currentBit
  = flat_map (byte_bits 8) payload ++ byte_bits currentBit last.
Proof.
  induction payload as [| p payload IH]; intros last currentBit; [reflexivity |].
  cbn [app rev flat_map]. rewrite unpack_block_snoc.
  - rewrite IH. now rewrite app_assoc.
  - intros E. apply (f_equal length) in E. rewrite length_rev, length_app in E.
    cbn in E. lia.
Qed.

(** Write Multiple Coils on a table that starts at 0, with a payload of
    exactly [byteCount] bytes and a range that ends within the reach of the
    [quint16] coil counter: the addressed words are replaced by the unpacked
    block and no other word changes. *)
Lemma processWriteMultipleCoilsRequest_from_zero d request address numberOfCoils byteCount :
  startAddress (m_coils d) = 0 ->
  decodeData_u16_u16_u8 request = Ok (address, numberOfCoils, byteCount) ->
  1 <= numberOfCoils <= 1968 ->
  byteCount = ceil_div8 numberOfCoils ->
  address + numberOfCoils <= valueCount (m_coils d) ->
  address + numberOfCoils <= 65536 ->
  Z.of_nat (length (drop 5 (data request))) = byteCount ->
  processWriteMultipleCoilsRequest d request
  = Ok (QModbusResponse_u16_u16 (functionCode request) address numberOfCoils,
        set_coils d
          (setValues (m_coils d)
             (take (Z.to_nat address) (values (m_coils d))
              ++ unpack_block (map quint8 (rev (drop 5 (data request))))
                              (Z.to_nat (8 - (byteCount * 8 - numberOfCoils)))
              ++ drop (Z.to_nat (address + numberOfCoils)) (values (m_coils d))))).
Proof.
  intros Hzero Hdec Hn Hbc Hfit Hmax Hpayload.
  pose proof (decodeData_u16_u16_u8_range _ _ _ _ Hdec) as (Ha & _ & _).
  pose proof (ceil_div8_bounds numberOfCoils ltac:(lia)) as (Hc1 & Hc2 & Hc3).
  unfold valueCount, QVector.count in Hfit.
  unfold processWriteMultipleCoilsRequest. rewrite Hdec. cbn [bind]. cbv zeta.
  rewrite expectedBytes_ceil by lia. rewrite Hzero, <- Hbc.
  rewrite (to_unsigned_nonneg (0 + valueCount (m_coils d)))
    by (unfold valueCount, QVector.count; lia).
  destruct (Z.ltb_spec numberOfCoils 1); [lia |]. cbn [orb].
  destruct (Z.gtb_spec numberOfCoils 0x07B0); [lia |]. cbn [orb].
  rewrite Z.eqb_refl. cbn [negb].
  destruct (Z.gtb_spec 0 address); [lia |]. cbn [orb].
  unfold valueCount, QVector.count.
  destruct (Z.ltb_spec (0 + Z.of_nat (length (values (m_coils d)))) (address + numberOfCoils));
    [lia |].
  unfold unpackCoils.
  set (bytes := map quint8 (rev (drop 5 (data request)))).
  set (currentBit := Z.to_nat (8 - (byteCount * 8 - numberOfCoils))).
  assert (Hblock : length (unpack_block bytes currentBit) = Z.to_nat numberOfCoils).
  { rewrite length_unpack_block.
    assert (Hlen : length bytes = Z.to_nat byteCount)
      by (subst bytes; rewrite length_map, length_rev; lia).
    destruct bytes as [| b bytes']; cbn [length] in Hlen; [lia |].
    cbv iota. subst currentBit. lia. }
  replace (8 - (byteCount * 8 - numberOfCoils)) with (Z.of_nat currentBit)
    by (subst currentBit; lia).
  replace (address + numberOfCoils)
    with (Z.of_nat (Z.to_nat address + Z.to_nat numberOfCoils)) by lia.
  rewrite writeCoils_bytes_spec by (rewrite ?Hblock; lia).
  cbn [bind]. rewrite Hblock, Nat2Z.id.
  replace (Z.to_nat address + Z.to_nat numberOfCoils - Z.to_nat numberOfCoils)%nat
    with (Z.to_nat address) by lia.
  reflexivity.
Qed.

(** The payload length is not compared with the byte count: one byte too
    many and words below the addressed coil are overwritten, the payload
    missing and nothing is stored; both requests are echoed. *)
Lemma processWriteMultipleCoilsRequest_payload_length :
  processWriteMultipleCoilsRequest coils16
    (mkPdu FunctionCode.WriteMultipleCoils [0; 8; 0; 1; 1; 1; 0xFF])
  = Ok (mkPdu 0x0F [0; 8; 0; 1],
        set_coils coils16
          (mkDataUnit Coils 0 [1; 0; 0; 0; 0; 0; 0; 0; 1; 0; 0; 0; 0; 0; 0; 0]))
  /\ processWriteMultipleCoilsRequest coils16
       (mkPdu FunctionCode.WriteMultipleCoils [0; 8; 0; 1; 1])
     = Ok (mkPdu 0x0F [0; 8; 0; 1], coils16).
Proof. split; reflexivity. Qed.

(** * Further properties of the register map *)

(** ** Element access *)

Lemma unit_of_set_unit d table u :
  table <> Invalid -> unit_of (set_unit d table u) table = Some u.
Proof. destruct table; intros H; try congruence; reflexivity. Qed.

Lemma unit_of_set_unit_ne d table table' u :
  table' <> table -> unit_of (set_unit d table u) table' = unit_of d table'.
Proof. destruct table, table'; intros H; try congruence; reflexivity. Qed.

Lemma unit_of_Some_valid d table u : unit_of d table = Some u -> table <> Invalid.
Proof. destruct table; [discriminate | discriminate ..]. Qed.

Lemma setValue_shape u i w : same_shape u (setValue u i w).
Proof.
  unfold setValue. destruct (QVector.in_range (values u) i); [| repeat split].
  repeat split. unfold valueCount, QVector.count. cbn. now rewrite length_insert.
Qed.

Lemma isValid_same_shape u u' : same_shape u u' -> isValid u' = isValid u.
Proof. intros (Ht & _ & _). unfold isValid. now rewrite Ht. Qed.

Lemma value_setValue_eq u i w :
  value (setValue u i w) i = if QVector.in_range (values u) i then w else 0.
Proof.
  unfold value, QVector.value, setValue.
  destruct (QVector.in_range (values u) i) eqn:Hin.
  - cbn [values setValues].
    assert (Hin' : QVector.in_range (<[Z.to_nat i := w]> (values u)) i = true)
      by (unfold QVector.in_range, QVector.count in *; now rewrite length_insert).
    rewrite Hin'. unfold QVector.in_range, QVector.count in Hin.
    apply andb_true_iff in Hin as [Hlo Hhi]. apply Z.leb_le in Hlo. apply Z.ltb_lt in Hhi.
    rewrite list_lookup_insert_eq by lia. reflexivity.
  - now rewrite Hin.
Qed.

Lemma value_setValue_ne u i j w : i <> j -> value (setValue u i w) j = value u j.
Proof.
  intros Hne. unfold value, QVector.value, setValue.
  destruct (QVector.in_range (values u) i) eqn:Hin; [| reflexivity].
  cbn [values setValues].
  assert (Hj : QVector.in_range (<[Z.to_nat i := w]> (values u)) j
               = QVector.in_range (values u) j)
    by (unfold QVector.in_range, QVector.count; now rewrite length_insert).
  rewrite Hj. destruct (QVector.in_range (values u) j) eqn:Hinj; [| reflexivity].
  unfold QVector.in_range in Hin, Hinj.
  apply andb_true_iff in Hin as [Hlo _]. apply Z.leb_le in Hlo.
  apply andb_true_iff in Hinj as [Hloj _]. apply Z.leb_le in Hloj.
  rewrite list_lookup_insert_ne by lia. reflexivity.
Qed.

(** What a successful element write is: the addressed table with
    [setValue] applied, every guard having passed. *)
Lemma setData_element_true d table address w d' :
  setData_element d table address w = (true, d') ->
  exists unit,
    unit_of d table = Some unit
    /\ isValid unit = true
    /\ startAddress unit <= address < to_unsigned (startAddress unit + valueCount unit)
    /\ d' = set_unit d table (setValue unit address w).
Proof.
  unfold setData_element. destruct (unit_of d table) as [unit |] eqn:Hu; [| discriminate].
  destruct (isValid unit) eqn:Hv; cbn [negb orb]; [| discriminate].
  destruct (Z.ltb_spec address (startAddress unit)); cbn [orb]; [discriminate |].
  destruct (Z.geb_spec address (to_unsigned (startAddress unit + valueCount unit))); [discriminate |].
  intros [= <-]. exists unit. repeat split; try assumption; lia.
Qed.

Lemma data_element_in_bounds d table unit address :
  unit_of d table = Some unit ->
  isValid unit = true ->
  startAddress unit <= address < to_unsigned (startAddress unit + valueCount unit) ->
  data_element d table address = (true, Some (value unit address)).
Proof.
  intros Hu Hv Hb. unfold data_element. rewrite Hu, Hv. cbn [negb orb].
  destruct (Z.ltb_spec address (startAddress unit)); [lia |]. cbn [orb].
  destruct (Z.geb_spec address (to_unsigned (startAddress unit + valueCount unit))); [lia | reflexivity].
Qed.

(** X1: after a successful element write, reading the same address of the
    same table succeeds; it returns the written word when the address is a
    position of the value sequence, which it always is for a table that
    starts at 0, and 0 otherwise. *)
Theorem setData_element_then_data_element d table address w d' unit :
  unit_of d table = Some unit ->
  setData_element d table address w = (true, d') ->
  data_element d' table address
  = (true, Some (if QVector.in_range (values unit) address then w else 0)).
Proof.
  intros Hu Hset. destruct (setData_element_true _ _ _ _ _ Hset) as (u & Hu' & Hv & Hb & ->).
  rewrite Hu in Hu'. injection Hu' as <-.
  pose proof (setValue_shape unit address w) as Hshape.
  rewrite (data_element_in_bounds _ _ (setValue unit address w)).
  - now rewrite value_setValue_eq.
  - apply unit_of_set_unit. eapply unit_of_Some_valid; eassumption.
  - now rewrite (isValid_same_shape _ _ Hshape).
  - destruct Hshape as (_ & -> & ->). exact Hb.
Qed.

Lemma setData_element_then_data_element_witness :
  data_element (set_unit holding_from_2 HoldingRegisters
                  (setValue (m_holdingRegisters holding_from_2) 3 99))
               HoldingRegisters 3
  = (true, Some (if QVector.in_range (values (m_holdingRegisters holding_from_2)) 3
                 then 99 else 0)).
Proof.
  apply (setData_element_then_data_element holding_from_2 HoldingRegisters 3 99 _
           (m_holdingRegisters holding_from_2)); reflexivity.
Defined.

(** X2: a successful element write changes what no other read returns:
    every other address of the table, and every address of the other
    tables, reads as before. *)
Theorem setData_element_frame d table address w d' table' address' :
  setData_element d table address w = (true, d') ->
  table' <> table \/ address' <> address ->
  data_element d' table' address' = data_element d table' address'.
Proof.
  intros Hset Hother.
  destruct (setData_element_true _ _ _ _ _ Hset) as (unit & Hu & Hv & Hb & ->).
  unfold data_element.
  destruct (decide (table' = table)) as [-> | Hne].
  - destruct Hother as [? | Hne]; [congruence |].
    rewrite unit_of_set_unit by (eapply unit_of_Some_valid; eassumption). rewrite Hu.
    pose proof (setValue_shape unit address w) as Hshape.
    rewrite (isValid_same_shape _ _ Hshape).
    destruct Hshape as (_ & -> & ->).
    rewrite value_setValue_ne by congruence. reflexivity.
  - now rewrite unit_of_set_unit_ne.
Qed.

Lemma setData_element_frame_witness :
  data_element (set_unit holding_from_2 HoldingRegisters
                  (setValue (m_holdingRegisters holding_from_2) 3 99))
               HoldingRegisters 2
  = data_element holding_from_2 HoldingRegisters 2.
Proof.
  apply (setData_element_frame holding_from_2 HoldingRegisters 3 99 _ HoldingRegisters 2).
  - reflexivity.
  - right. discriminate.
Defined.

(** X3: an element write is accepted exactly when the register type is
    not [Invalid], the table is valid and the address lies from the start
    address up to, but not including, the unsigned sum of start address
    and count (the sum itself when it is not negative); an element read is
    accepted exactly when, in addition, the pointer it is given is not
    null. *)
Theorem element_access_succeeds_iff d table address w out :
  (fst (QModbusServer_data d table address out) = true
   <-> out <> None
       /\ exists unit,
            unit_of d table = Some unit
            /\ isValid unit = true
            /\ startAddress unit <= address
               < to_unsigned (startAddress unit + valueCount unit))
  /\ (fst (setData_element d table address w) = true
      <-> exists unit,
            unit_of d table = Some unit
            /\ isValid unit = true
            /\ startAddress unit <= address
               < to_unsigned (startAddress unit + valueCount unit)).
Proof.
  assert (Hguard : forall A (x : A) (y : QModbusDataUnit -> A),
            fst (match unit_of d table with
                 | None => (false, x)
                 | Some unit =>
                     if negb (isValid unit) || (address <? startAddress unit)
                        || (address >=? to_unsigned (startAddress unit + valueCount unit))
                     then (false, x) else (true, y unit)
                 end) = true
            <-> exists unit,
                  unit_of d table = Some unit
                  /\ isValid unit = true
                  /\ startAddress unit <= address
                     < to_unsigned (startAddress unit + valueCount unit)).
  { intros A x y. destruct (unit_of d table) as [unit |]; cbn [fst].
    2:{ split; [discriminate | intros (u & H & _); discriminate]. }
    destruct (isValid unit) eqn:Hv; cbn [negb orb].
    2:{ split; [discriminate |]. intros (u & [= <-] & Hv' & _). congruence. }
    destruct (Z.ltb_spec address (startAddress unit)); cbn [orb fst].
    { split; [discriminate |]. intros (u & [= <-] & _ & Hb). lia. }
    destruct (Z.geb_spec address (to_unsigned (startAddress unit + valueCount unit)));
      cbn [fst].
    { split; [discriminate |]. intros (u & [= <-] & _ & Hb). lia. }
    split; [| reflexivity]. intros _. exists unit. repeat split; try assumption; lia. }
  split.
  - destruct out as [out |]; cbn [QModbusServer_data].
    + pose proof (Hguard (option Z) None (fun unit => Some (value unit address))) as H.
      change (fst (data_element d table address) = true
              <-> exists unit,
                    unit_of d table = Some unit
                    /\ isValid unit = true
                    /\ startAddress unit <= address
                       < to_unsigned (startAddress unit + valueCount unit)) in H.
      rewrite H. split; [intros Hex; split; [discriminate | exact Hex] | now intros [_ Hex]].
    + split; [discriminate | intros [Hnull _]; congruence].
  - exact (Hguard QModbusServerPrivate d
             (fun unit => set_unit d table (setValue unit address w))).
Qed.

(** X4: on a table whose start address plus count is not negative,
    writing one element is writing the range that holds just that
    element. *)
Theorem setData_element_is_singleton_range d table address w :
  (forall unit, unit_of d table = Some unit -> 0 <= startAddress unit + valueCount unit) ->
  setData_element d table address w = setData_unit d (mkDataUnit table address [w]).
Proof.
  intros Hsum. unfold setData_element, setData_unit. cbn [registerType startAddress].
  destruct (unit_of d table) as [unit |]; [| reflexivity].
  rewrite to_unsigned_nonneg by now apply Hsum.
  destruct (isValid unit); cbn [negb orb]; [| reflexivity].
  change (valueCount (mkDataUnit table address [w])) with 1.
  destruct (Z.ltb_spec address (startAddress unit)); cbn [orb]; [reflexivity |].
  destruct (Z.geb_spec address (startAddress unit + valueCount unit));
    destruct (Z.gtb_spec address (startAddress unit + valueCount unit - 1)); try lia;
    [reflexivity |].
  destruct (Z.ltb_spec (address + 1 - 1) (startAddress unit)); [lia |]. cbn [orb].
  destruct (Z.gtb_spec (address + 1 - 1) (startAddress unit + valueCount unit - 1)); [lia |].
  change (Z.to_nat 1) with 1%nat. cbn [setData_loop startAddress].
  rewrite Z.sub_diag. reflexivity.
Qed.

Lemma setData_element_is_singleton_range_witness :
  setData_element holding_from_2 HoldingRegisters 3 99
  = setData_unit holding_from_2 (mkDataUnit HoldingRegisters 3 [99]).
Proof.
  apply (setData_element_is_singleton_range holding_from_2 HoldingRegisters 3 99).
  intros unit [= <-]. vm_compute. discriminate.
Defined.

(** ** Shapes *)

Lemma same_shape_refl u : same_shape u u.
Proof. repeat split. Qed.

Lemma same_shape_trans u1 u2 u3 : same_shape u1 u2 -> same_shape u2 u3 -> same_shape u1 u3.
Proof. intros (? & ? & ?) (? & ? & ?). repeat split; congruence. Qed.

Lemma same_shapes_refl d : same_shapes d d.
Proof. repeat split. Qed.

Lemma same_shapes_set_unit d table u u' :
  unit_of d table = Some u -> same_shape u u' -> same_shapes d (set_unit d table u').
Proof.
  destruct table; cbn; try discriminate; intros [= <-] H;
    repeat split; try apply H.
Qed.

Lemma setData_loop_shape newData n : forall i current,
  same_shape current (setData_loop n i newData current).
Proof.
  induction n as [| n IH]; intros i current; cbn [setData_loop]; [apply same_shape_refl |].
  eapply same_shape_trans; [apply setValue_shape | apply IH].
Qed.

(** X6: neither write accessor ever resizes, moves or retypes a table:
    after an element write or a range write, accepted or refused, each of
    the four tables has the kind, the start address and the number of
    values it had. *)
Theorem writes_keep_shapes d :
  (forall table address w, same_shapes d (snd (setData_element d table address w)))
  /\ (forall newData, same_shapes d (snd (setData_unit d newData))).
Proof.
  split.
  - intros table address w. unfold setData_element.
    destruct (unit_of d table) as [unit |] eqn:Hu; [| apply same_shapes_refl].
    destruct (_ || _); [apply same_shapes_refl |]. cbn [snd].
    eapply same_shapes_set_unit; [exact Hu | apply setValue_shape].
  - intros newData. unfold setData_unit.
    destruct (unit_of d (registerType newData)) as [current |] eqn:Hu; [| apply same_shapes_refl].
    destruct (negb (isValid current)); [apply same_shapes_refl |].
    destruct ((startAddress newData <? startAddress current) || _); [apply same_shapes_refl |].
    destruct ((startAddress newData + valueCount newData - 1 <? startAddress current) || _);
      [apply same_shapes_refl |].
    cbn [snd]. eapply same_shapes_set_unit; [exact Hu | apply setData_loop_shape].
Qed.

(** ** Range access on a table that starts at 0 *)

(** What an accepted range read is, when the queried start is not
    negative: both range checks passed and the unit holds the [mid] of the
    table. *)
Lemma data_unit_true d q current r :
  unit_of d (registerType q) = Some current ->
  0 <= startAddress q ->
  data_unit d (Some q) = (true, Some r) ->
  startAddress current <= startAddress q
  /\ startAddress q + valueCount q <= startAddress current + valueCount current
  /\ r = setValues q (QVector.mid (values current) (startAddress q) (valueCount q)).
Proof.
  intros Hu Hs. unfold data_unit. rewrite Hu.
  destruct (Z.ltb_spec (startAddress q) 0); [lia |].
  destruct (Z.ltb_spec (startAddress q) (startAddress current)); cbn [orb]; [discriminate |].
  destruct (Z.gtb_spec (startAddress q) (startAddress current + valueCount current - 1));
    [discriminate |].
  destruct (Z.ltb_spec (startAddress q + valueCount q - 1) (startAddress current));
    cbn [orb]; [discriminate |].
  destruct (Z.gtb_spec (startAddress q + valueCount q - 1)
                       (startAddress current + valueCount current - 1)); [discriminate |].
  intros [= <-]. repeat split; lia.
Qed.

(** X5: on a valid table that starts at 0, a range read that follows an
    accepted range write of the same kind, start and count is accepted and
    returns exactly the values written. *)
Theorem setData_unit_then_data_unit d newData current q :
  unit_of d (registerType newData) = Some current ->
  isValid current = true ->
  startAddress current = 0 ->
  0 <= startAddress newData ->
  1 <= valueCount newData ->
  startAddress newData + valueCount newData <= valueCount current ->
  registerType q = registerType newData ->
  startAddress q = startAddress newData ->
  valueCount q = valueCount newData ->
  data_unit (snd (setData_unit d newData)) (Some q)
  = (true, Some (setValues q (values newData))).
Proof.
  intros Hcur Hvalid Hzero Hs Hn Hfit Hqt Hqs Hqn.
  rewrite (setData_unit_from_zero _ _ _ Hcur Hvalid Hzero Hs Hn Hfit). cbn [snd].
  unfold data_unit. rewrite Hqt, Hqs, Hqn.
  rewrite unit_of_set_unit by (eapply unit_of_Some_valid; eassumption).
  unfold valueCount, QVector.count in *. cbn [startAddress values setValues]. rewrite Hzero.
  set (s := Z.to_nat (startAddress newData)).
  assert (Hlen : length (take s (values current) ++ values newData
                         ++ drop (Z.to_nat (startAddress newData
                                            + Z.of_nat (length (values newData))))
                                 (values current))
                 = length (values current)).
  { rewrite !length_app, length_take_le, length_drop by (subst s; lia). subst s. lia. }
  rewrite Hlen.
  destruct (Z.ltb_spec (startAddress newData) 0); [lia |].
  destruct (Z.gtb_spec (startAddress newData) (0 + Z.of_nat (length (values current)) - 1));
    [lia |]. cbn [orb].
  destruct (Z.ltb_spec (startAddress newData + Z.of_nat (length (values newData)) - 1) 0);
    [lia |]. cbn [orb].
  destruct (Z.gtb_spec (startAddress newData + Z.of_nat (length (values newData)) - 1)
                       (0 + Z.of_nat (length (values current)) - 1)); [lia |].
  do 3 f_equal. unfold QVector.mid. fold s.
  rewrite drop_app_length' by (rewrite length_take_le; subst s; lia).
  rewrite Nat2Z.id. apply take_app_length.
Qed.

Lemma setData_unit_then_data_unit_witness :
  data_unit (snd (setData_unit (mkServer no_table no_table no_table
                                  (mkDataUnit HoldingRegisters 0 [10; 11; 12; 13]))
                               (mkDataUnit HoldingRegisters 1 [7; 8])))
            (Some (mkDataUnit HoldingRegisters 1 [0; 0]))
  = (true, Some (setValues (mkDataUnit HoldingRegisters 1 [0; 0]) [7; 8])).
Proof.
  apply (setData_unit_then_data_unit _ (mkDataUnit HoldingRegisters 1 [7; 8])
           (mkDataUnit HoldingRegisters 0 [10; 11; 12; 13])
           (mkDataUnit HoldingRegisters 1 [0; 0]));
    try reflexivity; vm_compute; discriminate.
Defined.

(** X7: on a valid table that starts at 0, an accepted range read returns
    as many values as were asked for, and its value number [j] is the word
    the element read returns at the start address plus [j]. *)
Theorem data_unit_agrees_with_data_element d q current r :
  unit_of d (registerType q) = Some current ->
  isValid current = true ->
  startAddress current = 0 ->
  0 <= startAddress q ->
  data_unit d (Some q) = (true, Some r) ->
  valueCount r = valueCount q
  /\ forall j, 0 <= j < valueCount q ->
       exists w, values r !! Z.to_nat j = Some w
                 /\ data_element d (registerType q) (startAddress q + j) = (true, Some w).
Proof.
  intros Hcur Hvalid Hzero Hs Hread.
  destruct (data_unit_true _ _ _ _ Hcur Hs Hread) as (Hlo & Hhi & ->).
  unfold valueCount, QVector.count in *. cbn [values setValues]. unfold QVector.mid.
  rewrite Hzero in *.
  split; [rewrite length_take_le by (rewrite length_drop; lia); lia |].
  intros j Hj.
  destruct (lookup_lt_is_Some_2 (values current) (Z.to_nat (startAddress q + j)))
    as [w Hw]; [lia |].
  exists w. split.
  - rewrite lookup_take_lt by lia. rewrite lookup_drop. rewrite <- Hw. f_equal. lia.
  - rewrite (data_element_in_bounds _ _ current) by
        (try assumption; rewrite to_unsigned_nonneg;
         unfold valueCount, QVector.count; lia).
    do 2 f_equal. rewrite <- (Z2Nat.id (startAddress q + j)) by lia.
    now apply value_lookup.
Qed.

Lemma data_unit_agrees_with_data_element_witness :
  valueCount (mkDataUnit HoldingRegisters 1 [11; 12]) = valueCount (mkDataUnit HoldingRegisters 1 [0; 0])
  /\ forall j, 0 <= j < valueCount (mkDataUnit HoldingRegisters 1 [0; 0]) ->
       exists w, values (mkDataUnit HoldingRegisters 1 [11; 12]) !! Z.to_nat j = Some w
                 /\ data_element (mkServer no_table no_table no_table
                                    (mkDataUnit HoldingRegisters 0 [10; 11; 12; 13]))
                                 (registerType (mkDataUnit HoldingRegisters 1 [0; 0]))
                                 (startAddress (mkDataUnit HoldingRegisters 1 [0; 0]) + j)
                    = (true, Some w).
Proof.
  apply (data_unit_agrees_with_data_element
           (mkServer no_table no_table no_table
              (mkDataUnit HoldingRegisters 0 [10; 11; 12; 13]))
           (mkDataUnit HoldingRegisters 1 [0; 0])
           (mkDataUnit HoldingRegisters 0 [10; 11; 12; 13])
           (mkDataUnit HoldingRegisters 1 [11; 12]));
    try reflexivity; vm_compute; discriminate.
Defined.

(** * Further properties of the request handlers *)

(** ** Validation and answers *)

Lemma length_readCoils_bytes n : forall data address bytes result,
  readCoils_bytes n data address bytes = Ok result ->
  length result = (length bytes + n)%nat.
Proof.
  induction n as [| n IH]; intros data address bytes result; cbn [readCoils_bytes].
  - intros [= <-]. lia.
  - destruct (readCoils_bits 8 0 data address 0) as [[byte address'] | f]; cbn [bind];
      [| discriminate].
    intros H. apply IH in H. rewrite H, length_app. cbn [length]. lia.
Qed.

Lemma length_packCoils data numberOfCoils byteCount bytes :
  packCoils data numberOfCoils = Ok (byteCount, bytes) ->
  length bytes = Z.to_nat byteCount.
Proof.
  unfold packCoils. destruct (negb _).
  - destruct (readCoils_bytes _ _ _ _) as [result |] eqn:E; cbn [bind]; [| discriminate].
    intros [= <- <-]. now apply length_readCoils_bytes in E.
  - destruct (readCoils_bytes _ _ _ _) as [result |] eqn:E; cbn [bind]; [| discriminate].
    intros [= <- <-]. now apply length_readCoils_bytes in E.
Qed.

Lemma packCoils_byteCount_range data numberOfCoils byteCount bytes :
  packCoils data numberOfCoils = Ok (byteCount, bytes) -> 0 <= byteCount < 256.
Proof.
  unfold packCoils. destruct (negb _).
  - destruct (readCoils_bytes _ _ _ _); cbn [bind]; [| discriminate].
    intros [= <- _]. apply quint8_range.
  - destruct (readCoils_bytes _ _ _ _); cbn [bind]; [| discriminate].
    intros [= <- _]. apply quint8_range.
Qed.

(** No answer of Read Coils that carries data is an exception response. *)
Lemma exception_is_not_read_coils_data fc ec data numberOfCoils byteCount bytes :
  packCoils data numberOfCoils = Ok (byteCount, bytes) ->
  0 < ec < 256 ->
  QModbusExceptionResponse fc ec <> QModbusResponse_u8_bytes fc byteCount bytes.
Proof.
  intros Hpack Hec. pose proof (packCoils_byteCount_range _ _ _ _ Hpack) as Hrange.
  apply length_packCoils in Hpack.
  unfold QModbusExceptionResponse, QModbusResponse_u8_bytes. intros [= _ Hb Hnil].
  destruct bytes; [| discriminate]. cbn [length] in Hpack.
  rewrite quint8_small in Hb by lia. lia.
Qed.

Lemma processReadCoilsRequest_guards d request address numberOfCoils :
  decodeData_u16_u16 request = Ok (address, numberOfCoils) ->
  (processReadCoilsRequest d request
   = Ok (QModbusExceptionResponse (functionCode request) IllegalDataValue, d)
   <-> numberOfCoils < 1 \/ numberOfCoils > 2000)
  /\ (processReadCoilsRequest d request
      = Ok (QModbusExceptionResponse (functionCode request) IllegalDataAddress, d)
      <-> 1 <= numberOfCoils <= 2000
          /\ (address < startAddress (m_coils d)
              \/ to_unsigned (startAddress (m_coils d) + valueCount (m_coils d)) < address + numberOfCoils))
  /\ (forall response d', processReadCoilsRequest d request = Ok (response, d') -> d' = d).
Proof.
  intros Hdec.
  assert (Hdata : forall ec, 0 < ec < 256 ->
            bind (packCoils (QVector.mid (values (m_coils d)) address numberOfCoils)
                            numberOfCoils)
                 (fun x => let (byteCount, bytes) := x in
                           Ok (QModbusResponse_u8_bytes (functionCode request) byteCount bytes,
                               d))
            <> Ok (QModbusExceptionResponse (functionCode request) ec, d)).
  { intros ec Hec. destruct (packCoils _ _) as [[byteCount bytes] |] eqn:Hpack; cbn [bind];
      [| discriminate].
    intros H.
    apply (exception_is_not_read_coils_data (functionCode request) ec _ _ _ _ Hpack Hec).
    congruence. }
  split; [| split; [| intros response d'; apply processReadCoilsRequest_frame]].
  - unfold processReadCoilsRequest. rewrite Hdec. cbn [bind].
    destruct (Z.ltb_spec numberOfCoils 1) as [Hlo | Hlo]; cbn [orb]; [split; [lia | reflexivity] |].
    destruct (Z.gtb_spec numberOfCoils 0x07D0) as [Hhi | Hhi]; [split; [lia | reflexivity] |].
    split; [| lia]. intros Hrun. exfalso.
    destruct (_ || _); [discriminate Hrun |].
    revert Hrun. apply Hdata. vm_compute. split; reflexivity.
  - unfold processReadCoilsRequest. rewrite Hdec. cbn [bind].
    destruct (Z.ltb_spec numberOfCoils 1) as [Hlo | Hlo]; cbn [orb];
      [split; [discriminate | intros [? _]; lia] |].
    destruct (Z.gtb_spec numberOfCoils 0x07D0) as [Hhi | Hhi];
      [split; [discriminate | intros [? _]; lia] |].
    destruct (Z.gtb_spec (startAddress (m_coils d)) address) as [Hs | Hs]; cbn [orb];
      [split; [lia | reflexivity] |].
    destruct (Z.ltb_spec (to_unsigned (startAddress (m_coils d) + valueCount (m_coils d)))
                         (address + numberOfCoils)) as [He | He];
      [split; [lia | reflexivity] |].
    split; [| lia]. intros Hrun. exfalso.
    revert Hrun. apply Hdata. vm_compute. split; reflexivity.
Qed.

(** X8: Read Coils, for a payload that holds the address and the count,
    answers with the IllegalDataValue exception exactly when the count is
    below 1 or above 2000, with the IllegalDataAddress exception exactly
    when the count is admitted and the address is below the start address
    or the end of the range is above the unsigned sum of start address and
    count, and whatever it answers the register map is the one it was
    given. *)
Theorem processReadCoilsRequest_validation d request address numberOfCoils :
  decodeData_u16_u16 request = Ok (address, numberOfCoils) ->
  (processReadCoilsRequest d request
   = Ok (QModbusExceptionResponse (functionCode request) IllegalDataValue, d)
   <-> numberOfCoils < 1 \/ numberOfCoils > 2000)
  /\ (processReadCoilsRequest d request
      = Ok (QModbusExceptionResponse (functionCode request) IllegalDataAddress, d)
      <-> 1 <= numberOfCoils <= 2000
          /\ (address < startAddress (m_coils d)
              \/ to_unsigned (startAddress (m_coils d) + valueCount (m_coils d)) < address + numberOfCoils))
  /\ (forall response d', processReadCoilsRequest d request = Ok (response, d') -> d' = d).
Proof. exact (processReadCoilsRequest_guards d request address numberOfCoils). Qed.

Lemma processReadCoilsRequest_validation_witness :
  (processReadCoilsRequest coils16 (mkPdu FunctionCode.ReadCoils [0; 10; 0; 7])
   = Ok (QModbusExceptionResponse FunctionCode.ReadCoils IllegalDataValue, coils16)
   <-> 7 < 1 \/ 7 > 2000)
  /\ (processReadCoilsRequest coils16 (mkPdu FunctionCode.ReadCoils [0; 10; 0; 7])
      = Ok (QModbusExceptionResponse FunctionCode.ReadCoils IllegalDataAddress, coils16)
      <-> 1 <= 7 <= 2000
          /\ (10 < startAddress (m_coils coils16)
              \/ to_unsigned (startAddress (m_coils coils16) + valueCount (m_coils coils16)) < 10 + 7))
  /\ (forall response d',
        processReadCoilsRequest coils16 (mkPdu FunctionCode.ReadCoils [0; 10; 0; 7])
        = Ok (response, d') -> d' = coils16).
Proof.
  apply (processReadCoilsRequest_validation coils16
           (mkPdu FunctionCode.ReadCoils [0; 10; 0; 7]) 10 7).
  reflexivity.
Defined.

(** The two ways Write Multiple Coils answers: an exception and the state
    it was given, or the echo of address and count and a coils table in
    which words were replaced by bits. *)
Lemma processWriteMultipleCoilsRequest_answers d request response d' :
  processWriteMultipleCoilsRequest d request = Ok (response, d') ->
  (exists ec, (ec = IllegalDataAddress \/ ec = IllegalDataValue)
              /\ response = QModbusExceptionResponse (functionCode request) ec)
  /\ d' = d
  \/ exists address numberOfCoils byteCount vals,
       decodeData_u16_u16_u8 request = Ok (address, numberOfCoils, byteCount)
       /\ response = QModbusResponse_u16_u16 (functionCode request) address numberOfCoils
       /\ only_bits_stored (values (m_coils d)) vals
       /\ d' = set_coils d (setValues (m_coils d) vals).
Proof.
  unfold processWriteMultipleCoilsRequest.
  destruct (decodeData_u16_u16_u8 request) as [[[address numberOfCoils] byteCount] | f];
    cbn [bind]; [| discriminate].
  cbv zeta.
  destruct (_ || _).
  { intros [= <- <-]. left. split; [| reflexivity]. eexists. split; [right |]; reflexivity. }
  destruct (_ || _).
  { intros [= <- <-]. left. split; [| reflexivity]. eexists. split; [left |]; reflexivity. }
  destruct (unpackCoils _ _ _ _ _) as [vals | f] eqn:Hun; cbn [bind]; [| discriminate].
  intros [= <- <-]. right. exists address, numberOfCoils, byteCount, vals.
  repeat split. unfold unpackCoils in Hun.
  - eapply (proj1 (writeCoils_bytes_only_bits _ _ _ _ _ Hun)).
  - eapply (proj2 (writeCoils_bytes_only_bits _ _ _ _ _ Hun)).
Qed.

(** X9: Write Single Coil, for a payload that holds the address and the
    value, answers with the IllegalDataValue exception exactly when the
    value is neither 0x0000 nor 0xFF00, with the IllegalDataAddress
    exception exactly when the value is one of the two and the address is
    below the start address or above the unsigned sum of start address and
    count, and an exception answer comes with the register map it was
    given. *)
Theorem processWriteSingleCoilRequest_validation d request address value :
  decodeData_u16_u16 request = Ok (address, value) ->
  (processWriteSingleCoilRequest d request
   = Ok (QModbusExceptionResponse (functionCode request) IllegalDataValue, d)
   <-> value <> 0 /\ value <> 0xFF00)
  /\ (processWriteSingleCoilRequest d request
      = Ok (QModbusExceptionResponse (functionCode request) IllegalDataAddress, d)
      <-> (value = 0 \/ value = 0xFF00)
          /\ (address < startAddress (m_coils d)
              \/ to_unsigned (startAddress (m_coils d) + valueCount (m_coils d)) < address))
  /\ (forall ec d',
        processWriteSingleCoilRequest d request
        = Ok (QModbusExceptionResponse (functionCode request) ec, d') -> d' = d).
Proof.
  intros Hdec.
  assert (Hecho : forall ec d0,
            bind (QVector.set (values (m_coils d)) address value)
                 (fun data => Ok (QModbusResponse_u16_u16 (functionCode request) address value,
                                  set_coils d (setValues (m_coils d) data)))
            <> Ok (QModbusExceptionResponse (functionCode request) ec, d0)).
  { intros ec d0. destruct (QVector.set _ _ _); cbn [bind]; [| discriminate].
    intros Hrun. apply (exception_is_not_an_echo (functionCode request) ec address value).
    congruence. }
  split; [| split].
  - unfold processWriteSingleCoilRequest. rewrite Hdec. cbn [bind].
    destruct (Z.eqb_spec value 0x0000) as [H0 | H0];
      destruct (Z.eqb_spec value 0xFF00) as [H1 | H1]; cbn [negb andb].
    4:{ split; [tauto | reflexivity]. }
    all: split; [| tauto]; intros Hrun; exfalso.
    all: destruct (_ || _); [discriminate Hrun |].
    all: revert Hrun; apply Hecho.
  - unfold processWriteSingleCoilRequest. rewrite Hdec. cbn [bind].
    destruct (Z.eqb_spec value 0x0000) as [H0 | H0];
      destruct (Z.eqb_spec value 0xFF00) as [H1 | H1]; cbn [negb andb].
    4:{ split; [discriminate | tauto]. }
    all: destruct (Z.gtb_spec (startAddress (m_coils d)) address) as [Hs | Hs]; cbn [orb];
      [split; [intros _; split; [tauto | lia] | reflexivity] |].
    all: destruct (Z.ltb_spec (to_unsigned (startAddress (m_coils d) + valueCount (m_coils d))) address)
      as [He | He]; [split; [intros _; split; [tauto | lia] | reflexivity] |].
    all: split; [| intros [_ ?]; lia]; intros Hrun; exfalso.
    all: revert Hrun; apply Hecho.
  - intros ec d' Hrun.
    destruct (processWriteSingleCoilRequest_stores _ _ _ _ _ _ Hdec Hrun)
      as [[_ ->] | (Hresp & _)]; [reflexivity |].
    now apply exception_is_not_an_echo in Hresp.
Qed.

Lemma processWriteSingleCoilRequest_validation_witness :
  (processWriteSingleCoilRequest coils16 (mkPdu FunctionCode.WriteSingleCoil [0; 5; 0; 1])
   = Ok (QModbusExceptionResponse FunctionCode.WriteSingleCoil IllegalDataValue, coils16)
   <-> 1 <> 0 /\ 1 <> 0xFF00)
  /\ (processWriteSingleCoilRequest coils16 (mkPdu FunctionCode.WriteSingleCoil [0; 5; 0; 1])
      = Ok (QModbusExceptionResponse FunctionCode.WriteSingleCoil IllegalDataAddress, coils16)
      <-> (1 = 0 \/ 1 = 0xFF00)
          /\ (5 < startAddress (m_coils coils16)
              \/ to_unsigned (startAddress (m_coils coils16) + valueCount (m_coils coils16)) < 5))
  /\ (forall ec d',
        processWriteSingleCoilRequest coils16 (mkPdu FunctionCode.WriteSingleCoil [0; 5; 0; 1])
        = Ok (QModbusExceptionResponse FunctionCode.WriteSingleCoil ec, d') -> d' = coils16).
Proof.
  apply (processWriteSingleCoilRequest_validation coils16
           (mkPdu FunctionCode.WriteSingleCoil [0; 5; 0; 1]) 5 1).
  reflexivity.
Defined.

(** ** The dispatcher with the default hook *)

(** The function codes that run a built-in handler are below 0x80. *)
Lemma handled_codes_below_0x80 fc :
  In fc [0x01; 0x02; 0x03; 0x04; 0x05; 0x06; 0x07; 0x08; 0x0B; 0x0C; 0x0F] ->
  Z.lor fc 0x80 <> fc.
Proof.
  cbn [In]. intros H.
  repeat (destruct H as [<- | H]; [discriminate |]). destruct H.
Qed.

(** Which handler the dispatcher runs, by the list the code is in. *)
Lemma processRequest_handled custom d request :
  In (functionCode request)
     [0x01; 0x02; 0x03; 0x04; 0x05; 0x06; 0x07; 0x08; 0x0B; 0x0C; 0x0F] ->
  processRequest custom d request = processReadCoilsRequest d request
  \/ processRequest custom d request = processWriteSingleCoilRequest d request
  \/ processRequest custom d request = processWriteMultipleCoilsRequest d request.
Proof.
  cbn [In]. intros H. unfold processRequest. cbv zeta.
  repeat (destruct H as [<- | H]; [cbn; tauto |]). destruct H.
Qed.

(** X10: a request the server answers with an exception response leaves
    the whole register map as it was; and every answer is either such an
    exception, with code IllegalFunction, IllegalDataAddress or
    IllegalDataValue, or carries the function code of the request. *)
Theorem processRequest_answers d request response d' :
  QModbusServer_processRequest d request = Ok (response, d') ->
  ((exists ec, (ec = IllegalFunction \/ ec = IllegalDataAddress \/ ec = IllegalDataValue)
               /\ response = QModbusExceptionResponse (functionCode request) ec /\ d' = d)
   \/ functionCode response = functionCode request)
  /\ (forall ec, response = QModbusExceptionResponse (functionCode request) ec -> d' = d).
Proof.
  intros Hrun. unfold QModbusServer_processRequest in Hrun.
  destruct (in_dec Z.eq_dec (functionCode request)
              [0x01; 0x02; 0x03; 0x04; 0x05; 0x06; 0x07; 0x08; 0x0B; 0x0C; 0x0F])
    as [Hin | Hout].
  2:{ rewrite processRequest_custom in Hrun by assumption.
      unfold processCustomRequest in Hrun. injection Hrun as <- <-.
      split; [| reflexivity]. left. exists IllegalFunction. tauto. }
  pose proof (handled_codes_below_0x80 _ Hin) as Hfc.
  assert (Hexc : forall ec, response = QModbusExceptionResponse (functionCode request) ec ->
                            functionCode response <> functionCode request).
  { intros ec ->. exact Hfc. }
  destruct (processRequest_handled processCustomRequest d request Hin) as [E | [E | E]];
    rewrite E in Hrun; clear E.
  - pose proof (processReadCoilsRequest_frame _ _ _ _ Hrun) as ->.
    split; [| reflexivity].
    unfold processReadCoilsRequest in Hrun.
    destruct (decodeData_u16_u16 request) as [[address n] |]; cbn [bind] in Hrun;
      [| discriminate].
    destruct (_ || _); [injection Hrun as <-; left; exists IllegalDataValue; tauto |].
    destruct (_ || _); [injection Hrun as <-; left; exists IllegalDataAddress; tauto |].
    destruct (packCoils _ _) as [[byteCount bytes] |]; cbn [bind] in Hrun; [| discriminate].
    injection Hrun as <-. right. reflexivity.
  - destruct (decodeData_u16_u16 request) as [[address value] |] eqn:Hdec.
    2:{ unfold processWriteSingleCoilRequest in Hrun. rewrite Hdec in Hrun. discriminate. }
    destruct (processWriteSingleCoilRequest_stores _ _ _ _ _ _ Hdec Hrun)
      as [[[ec Hec] ->] | (-> & _)].
    + split; [| reflexivity]. left. exists ec. split; [| tauto].
      unfold processWriteSingleCoilRequest in Hrun. rewrite Hdec in Hrun. cbn [bind] in Hrun.
      destruct (_ && _).
      { injection Hrun as Hr. rewrite Hec in Hr. apply exception_codes_differ in Hr.
        subst ec. tauto. }
      destruct (_ || _).
      { injection Hrun as Hr. rewrite Hec in Hr. apply exception_codes_differ in Hr.
        subst ec. tauto. }
      destruct (QVector.set _ _ _); cbn [bind] in Hrun; [| discriminate].
      injection Hrun as Hr _. rewrite Hec in Hr. symmetry in Hr.
      now apply exception_is_not_an_echo in Hr.
    + split; [right; reflexivity |].
      intros ec Hr. symmetry in Hr. now apply exception_is_not_an_echo in Hr.
  - destruct (processWriteMultipleCoilsRequest_answers _ _ _ _ Hrun)
      as [[(ec & Hec & ->) ->] | (address & n & bc & vals & _ & -> & _)].
    + split; [| reflexivity]. left. exists ec. tauto.
    + split; [right; reflexivity |].
      intros ec Hr. symmetry in Hr. now apply exception_is_not_an_echo in Hr.
Qed.

Lemma processRequest_answers_witness :
  ((exists ec, (ec = IllegalFunction \/ ec = IllegalDataAddress \/ ec = IllegalDataValue)
               /\ QModbusExceptionResponse 0x05 IllegalDataValue
                  = QModbusExceptionResponse
                      (functionCode (mkPdu FunctionCode.WriteSingleCoil [0; 5; 0; 1])) ec
               /\ coils16 = coils16)
   \/ functionCode (QModbusExceptionResponse 0x05 IllegalDataValue)
      = functionCode (mkPdu FunctionCode.WriteSingleCoil [0; 5; 0; 1]))
  /\ (forall ec, QModbusExceptionResponse 0x05 IllegalDataValue
                 = QModbusExceptionResponse
                     (functionCode (mkPdu FunctionCode.WriteSingleCoil [0; 5; 0; 1])) ec ->
                 coils16 = coils16).
Proof.
  apply (processRequest_answers coils16 (mkPdu FunctionCode.WriteSingleCoil [0; 5; 0; 1])).
  reflexivity.
Defined.

Lemma same_shape_setValues u vals :
  length vals = length (values u) -> same_shape u (setValues u vals).
Proof.
  intros H. repeat split. unfold valueCount, QVector.count. cbn. now rewrite H.
Qed.

Lemma same_shapes_set_coils d u : same_shape (m_coils d) u -> same_shapes d (set_coils d u).
Proof. intros H. repeat split; apply H. Qed.

(** X11: no request resizes, moves or retypes a table: after any request
    the server answers, each of the four tables has the kind, the start
    address and the number of values it had. *)
Theorem processRequest_keeps_shapes d request response d' :
  QModbusServer_processRequest d request = Ok (response, d') -> same_shapes d d'.
Proof.
  intros Hrun. unfold QModbusServer_processRequest in Hrun.
  destruct (in_dec Z.eq_dec (functionCode request)
              [0x01; 0x02; 0x03; 0x04; 0x05; 0x06; 0x07; 0x08; 0x0B; 0x0C; 0x0F])
    as [Hin | Hout].
  2:{ rewrite processRequest_custom in Hrun by assumption.
      injection Hrun as _ <-. apply same_shapes_refl. }
  destruct (processRequest_handled processCustomRequest d request Hin) as [E | [E | E]];
    rewrite E in Hrun; clear E.
  - apply processReadCoilsRequest_frame in Hrun as ->. apply same_shapes_refl.
  - destruct (decodeData_u16_u16 request) as [[address value] |] eqn:Hdec.
    2:{ unfold processWriteSingleCoilRequest in Hrun. rewrite Hdec in Hrun. discriminate. }
    destruct (processWriteSingleCoilRequest_stores _ _ _ _ _ _ Hdec Hrun)
      as [[_ ->] | (_ & _ & _ & ->)]; [apply same_shapes_refl |].
    apply same_shapes_set_coils, same_shape_setValues, length_insert.
  - destruct (processWriteMultipleCoilsRequest_answers _ _ _ _ Hrun)
      as [[_ ->] | (address & n & bc & vals & _ & _ & [Hlen _] & ->)];
      [apply same_shapes_refl |].
    now apply same_shapes_set_coils, same_shape_setValues.
Qed.

Lemma processRequest_keeps_shapes_witness :
  same_shapes coils16
    (set_coils coils16 (mkDataUnit Coils 0 (<[5%nat := 0xFF00]> (replicate 16 0)))).
Proof.
  apply (processRequest_keeps_shapes coils16
           (mkPdu FunctionCode.WriteSingleCoil [0; 5; 0xFF; 0])
           (mkPdu 0x05 [0; 5; 0xFF; 0])).
  reflexivity.
Defined.

(** X12: every function code other than 0x01 to 0x08, 0x0B, 0x0C and 0x0F
    is answered, whatever the payload and the register map, by the
    IllegalFunction exception for that code, and the register map is left
    as it was. *)
Theorem unhandled_code_is_illegal_function d request :
  ~ In (functionCode request)
       [0x01; 0x02; 0x03; 0x04; 0x05; 0x06; 0x07; 0x08; 0x0B; 0x0C; 0x0F] ->
  QModbusServer_processRequest d request
  = Ok (mkPdu (Z.lor (functionCode request) 0x80) [IllegalFunction], d).
Proof.
  intros Hout. unfold QModbusServer_processRequest.
  now rewrite processRequest_custom by assumption.
Qed.

Lemma unhandled_code_is_illegal_function_witness :
  QModbusServer_processRequest coils16 (mkPdu FunctionCode.WriteMultipleRegisters [0; 1; 0; 1; 2; 0; 7])
  = Ok (mkPdu (Z.lor (functionCode (mkPdu FunctionCode.WriteMultipleRegisters [0; 1; 0; 1; 2; 0; 7])) 0x80)
              [IllegalFunction], coils16).
Proof.
  apply (unhandled_code_is_illegal_function coils16
           (mkPdu FunctionCode.WriteMultipleRegisters [0; 1; 0; 1; 2; 0; 7])).
  vm_compute. intros H. repeat (destruct H as [H | H]; [discriminate H |]). exact H.
Defined.

(** ** Read Coils, bit by bit *)

Lemma pack_groups_lookup n : forall ws (i : nat),
  (i < n)%nat ->
  pack_groups n ws !! i = Some (quint8 (pack_bits 0 (take 8 (drop (8 * i) ws)) 0)).
Proof.
  induction n as [| n IH]; intros ws i Hi; [lia |].
  cbn [pack_groups]. destruct i as [| i].
  - reflexivity.
  - cbn [lookup list_lookup]. rewrite IH by lia. rewrite drop_drop.
    do 5 f_equal. lia.
Qed.

(** Bit [r] of packed byte [i] reports word [8 * i + r]. *)
Lemma pack_groups_testbit n ws (i r : nat) w :
  (i < n)%nat -> (r < 8)%nat ->
  ws !! (8 * i + r)%nat = Some w ->
  exists byte, pack_groups n ws !! i = Some byte
               /\ 0 <= byte < 256
               /\ Z.testbit byte (Z.of_nat r) = to_bool w.
Proof.
  intros Hi Hr Hw. eexists. split; [now apply pack_groups_lookup |].
  split; [apply quint8_range |].
  rewrite quint8_testbit by lia.
  apply (pack_bits_testbit _ 0 0 r w); [lia |].
  rewrite lookup_take_lt by lia. now rewrite lookup_drop.
Qed.

Lemma processReadCoilsRequest_from_zero_padded d request address numberOfCoils :
  startAddress (m_coils d) = 0 ->
  decodeData_u16_u16 request = Ok (address, numberOfCoils) ->
  1 <= numberOfCoils <= 2000 ->
  address + numberOfCoils <= valueCount (m_coils d) ->
  exists k,
    (8 * Z.to_nat (ceil_div8 numberOfCoils) <= Z.to_nat numberOfCoils + k)%nat
    /\ processReadCoilsRequest d request
       = Ok (QModbusResponse_u8_bytes (functionCode request) (ceil_div8 numberOfCoils)
               (pack_groups (Z.to_nat (ceil_div8 numberOfCoils))
                  (take (Z.to_nat numberOfCoils) (drop (Z.to_nat address) (values (m_coils d)))
                   ++ replicate k 0)),
             d).
Proof.
  intros Hzero Hdec Hn Hfit.
  pose proof (decodeData_u16_u16_range _ _ _ Hdec) as [Ha _].
  unfold valueCount, QVector.count in Hfit.
  assert (Hcount : QVector.count (QVector.mid (values (m_coils d)) address numberOfCoils)
                   = numberOfCoils).
  { unfold QVector.count, QVector.mid. rewrite length_take_le by (rewrite length_drop; lia).
    lia. }
  destruct (packCoils_spec (QVector.mid (values (m_coils d)) address numberOfCoils))
    as (k & Hlen & Hpack); [rewrite Hcount; lia |].
  rewrite Hcount in Hpack, Hlen. exists k. split.
  { rewrite length_app, length_replicate in Hlen.
    unfold QVector.count in Hcount. lia. }
  unfold processReadCoilsRequest. rewrite Hdec. cbn [bind]. rewrite Hzero.
  rewrite (to_unsigned_nonneg (0 + valueCount (m_coils d)))
    by (unfold valueCount, QVector.count; lia).
  destruct (Z.ltb_spec numberOfCoils 1); [lia |]. cbn [orb].
  destruct (Z.gtb_spec numberOfCoils 0x07D0); [lia |].
  destruct (Z.gtb_spec 0 address); [lia |]. cbn [orb].
  unfold valueCount, QVector.count.
  destruct (Z.ltb_spec (0 + Z.of_nat (length (values (m_coils d)))) (address + numberOfCoils));
    [lia |].
  rewrite Hpack. reflexivity.
Qed.

Lemma processReadCoilsRequest_bitwise d request address numberOfCoils :
  startAddress (m_coils d) = 0 ->
  decodeData_u16_u16 request = Ok (address, numberOfCoils) ->
  1 <= numberOfCoils <= 2000 ->
  address + numberOfCoils <= valueCount (m_coils d) ->
  exists bytes,
    processReadCoilsRequest d request
    = Ok (mkPdu (functionCode request) (ceil_div8 numberOfCoils :: bytes), d)
    /\ QVector.count bytes = ceil_div8 numberOfCoils
    /\ forall i r : nat,
         (i < length bytes)%nat -> (r < 8)%nat ->
         exists byte,
           bytes !! i = Some byte
           /\ 0 <= byte < 256
           /\ Z.testbit byte (Z.of_nat r)
              = if Z.of_nat (8 * i + r) <? numberOfCoils
                then to_bool (value (m_coils d) (address + Z.of_nat (8 * i + r)))
                else false.
Proof.
  intros Hzero Hdec Hn Hfit.
  destruct (processReadCoilsRequest_from_zero_padded _ _ _ _ Hzero Hdec Hn Hfit)
    as (k & Hk & Hrun).
  pose proof (decodeData_u16_u16_range _ _ _ Hdec) as [Ha _].
  pose proof (ceil_div8_bounds numberOfCoils ltac:(lia)) as (Hc1 & Hc2 & Hc3).
  unfold valueCount, QVector.count in Hfit.
  set (m := Z.to_nat (ceil_div8 numberOfCoils)) in *.
  set (padded := take (Z.to_nat numberOfCoils) (drop (Z.to_nat address) (values (m_coils d)))
                 ++ replicate k 0) in *.
  exists (map quint8 (pack_groups m padded)).
  split; [| split].
  - rewrite Hrun. unfold QModbusResponse_u8_bytes. rewrite quint8_small by lia. reflexivity.
  - unfold QVector.count. rewrite length_map, length_pack_groups. subst m. lia.
  - rewrite length_map, length_pack_groups. intros i r Hi Hr.
    assert (Hlen : length (take (Z.to_nat numberOfCoils)
                             (drop (Z.to_nat address) (values (m_coils d))))
                   = Z.to_nat numberOfCoils)
      by (rewrite length_take_le; [reflexivity | rewrite length_drop; lia]).
    assert (Hw : exists w, padded !! (8 * i + r)%nat = Some w
                           /\ to_bool w
                              = if Z.of_nat (8 * i + r) <? numberOfCoils
                                then to_bool (value (m_coils d)
                                                (address + Z.of_nat (8 * i + r)))
                                else false).
    { subst padded. destruct (Z.ltb_spec (Z.of_nat (8 * i + r)) numberOfCoils) as [Hlt | Hge].
      - destruct (lookup_lt_is_Some_2 (values (m_coils d))
                    (Z.to_nat address + (8 * i + r))) as [w Hw]; [lia |].
        exists w. split.
        + rewrite lookup_app_l by lia. rewrite lookup_take_lt by lia.
          now rewrite lookup_drop.
        + replace (address + Z.of_nat (8 * i + r))
            with (Z.of_nat (Z.to_nat address + (8 * i + r))) by lia.
          now rewrite (value_lookup _ _ _ Hw).
      - exists 0. split; [| reflexivity].
        rewrite lookup_app_r by lia. apply lookup_replicate_2. subst m. lia. }
    destruct Hw as (w & Hw & Hbit).
    destruct (pack_groups_testbit m padded i r w Hi Hr Hw) as (byte & Hb & Hrange & Htest).
    exists (quint8 byte). split; [now rewrite list_lookup_fmap, Hb |].
    split; [apply quint8_range |].
    rewrite quint8_testbit by lia. now rewrite Htest.
Qed.

(** X13: Read Coils on a coils table that starts at 0, for an admitted
    count and a range inside the table, answers with the rounded-up eighth
    of the count followed by that many bytes; bit [r] of byte [i] is set
    exactly when the word of coil [address + 8 * i + r] is not zero, and
    the bits beyond the count are clear. *)
Theorem processReadCoilsRequest_bits d request address numberOfCoils :
  startAddress (m_coils d) = 0 ->
  decodeData_u16_u16 request = Ok (address, numberOfCoils) ->
  1 <= numberOfCoils <= 2000 ->
  address + numberOfCoils <= valueCount (m_coils d) ->
  exists bytes,
    processReadCoilsRequest d request
    = Ok (mkPdu (functionCode request) (ceil_div8 numberOfCoils :: bytes), d)
    /\ QVector.count bytes = ceil_div8 numberOfCoils
    /\ forall i r : nat,
         (i < length bytes)%nat -> (r < 8)%nat ->
         exists byte,
           bytes !! i = Some byte
           /\ 0 <= byte < 256
           /\ Z.testbit byte (Z.of_nat r)
              = if Z.of_nat (8 * i + r) <? numberOfCoils
                then to_bool (value (m_coils d) (address + Z.of_nat (8 * i + r)))
                else false.
Proof. exact (processReadCoilsRequest_bitwise d request address numberOfCoils). Qed.

Lemma processReadCoilsRequest_bits_witness :
  exists bytes,
    processReadCoilsRequest coils16 (mkPdu FunctionCode.ReadCoils [0; 3; 0; 10])
    = Ok (mkPdu (functionCode (mkPdu FunctionCode.ReadCoils [0; 3; 0; 10]))
                (ceil_div8 10 :: bytes), coils16)
    /\ QVector.count bytes = ceil_div8 10
    /\ forall i r : nat,
         (i < length bytes)%nat -> (r < 8)%nat ->
         exists byte,
           bytes !! i = Some byte
           /\ 0 <= byte < 256
           /\ Z.testbit byte (Z.of_nat r)
              = if Z.of_nat (8 * i + r) <? 10
                then to_bool (value (m_coils coils16) (3 + Z.of_nat (8 * i + r)))
                else false.
Proof.
  apply (processReadCoilsRequest_bits coils16 (mkPdu FunctionCode.ReadCoils [0; 3; 0; 10]) 3 10).
  - reflexivity.
  - reflexivity.
  - lia.
  - vm_compute. discriminate.
Defined.

(** ** Write Multiple Coils, bit by bit *)

Lemma byte_bits_lookup n byte (r : nat) :
  (r < n)%nat -> byte_bits n byte !! r = Some (of_bool (Z.testbit byte (Z.of_nat r))).
Proof.
  intros Hr. unfold byte_bits, bitset8.test.
  rewrite list_lookup_fmap, lookup_seq_lt by assumption. reflexivity.
Qed.

Lemma length_flat_map_byte_bits l : length (flat_map (byte_bits 8) l) = (8 * length l)%nat.
Proof.
  induction l as [| x l IH]; [reflexivity |].
  cbn [flat_map]. rewrite length_app, length_byte_bits, IH. cbn [length]. lia.
Qed.

Lemma flat_map_byte_bits_lookup l : forall (i r : nat),
  (r < 8)%nat ->
  flat_map (byte_bits 8) l !! (8 * i + r)%nat
  = (fun b => of_bool (Z.testbit b (Z.of_nat r))) <$> l !! i.
Proof.
  induction l as [| x l IH]; intros i r Hr; [reflexivity |].
  cbn [flat_map]. destruct i as [| i].
  - rewrite lookup_app_l by (rewrite length_byte_bits; lia).
    rewrite Nat.mul_0_r, Nat.add_0_l. now rewrite byte_bits_lookup.
  - rewrite lookup_app_r by (rewrite length_byte_bits; lia).
    rewrite length_byte_bits.
    replace (8 * S i + r - 8)%nat with (8 * i + r)%nat by lia.
    now rewrite IH.
Qed.

(** Word [8 * i + r] of the block stored for a payload is bit [r] of
    payload byte [i]. *)
Lemma unpack_block_lookup payload currentBit (i r : nat) p :
  (currentBit <= 8)%nat ->
  payload !! i = Some p ->
  (r < 8)%nat ->
  (8 * i + r < 8 * (length payload - 1) + currentBit)%nat ->
  unpack_block (map quint8 (rev payload)) currentBit !! (8 * i + r)%nat
  = Some (of_bool (Z.testbit p (Z.of_nat r))).
Proof.
  intros Hcb Hp Hr Hlt.
  destruct payload as [| last init _] using rev_ind; [discriminate |].
  rewrite map_rev, map_app. cbn [map]. rewrite unpack_block_rev.
  rewrite length_app in Hlt. cbn [length] in Hlt.
  destruct (decide (i < length init)%nat) as [Hi | Hi].
  - rewrite lookup_app_l by (rewrite length_flat_map_byte_bits, length_map; lia).
    rewrite flat_map_byte_bits_lookup by assumption.
    rewrite lookup_app_l in Hp by assumption.
    rewrite list_lookup_fmap, Hp. cbn. now rewrite quint8_testbit by lia.
  - assert (i = length init) as -> by lia.
    rewrite lookup_app_r in Hp by lia. rewrite Nat.sub_diag in Hp. injection Hp as ->.
    rewrite lookup_app_r by (rewrite length_flat_map_byte_bits, length_map; lia).
    rewrite length_flat_map_byte_bits, length_map.
    replace (8 * length init + r - 8 * length init)%nat with r by lia.
    rewrite byte_bits_lookup by lia. now rewrite quint8_testbit by lia.
Qed.

Lemma value_eq_of_lookup u u' i :
  length (values u') = length (values u) ->
  (0 <= i -> values u' !! Z.to_nat i = values u !! Z.to_nat i) ->
  value u' i = value u i.
Proof.
  intros Hlen Hl. unfold value, QVector.value, QVector.in_range, QVector.count.
  rewrite Hlen. destruct (Z.leb_spec 0 i); cbn [andb]; [| reflexivity].
  now rewrite Hl.
Qed.

Lemma processWriteMultipleCoilsRequest_bitwise d request address numberOfCoils byteCount :
  startAddress (m_coils d) = 0 ->
  decodeData_u16_u16_u8 request = Ok (address, numberOfCoils, byteCount) ->
  1 <= numberOfCoils <= 1968 ->
  byteCount = ceil_div8 numberOfCoils ->
  address + numberOfCoils <= valueCount (m_coils d) ->
  address + numberOfCoils <= 65536 ->
  Z.of_nat (length (drop 5 (data request))) = byteCount ->
  exists d',
    processWriteMultipleCoilsRequest d request
    = Ok (QModbusResponse_u16_u16 (functionCode request) address numberOfCoils, d')
    /\ same_shapes d d'
    /\ (forall (i r : nat) p,
          drop 5 (data request) !! i = Some p ->
          (r < 8)%nat ->
          Z.of_nat (8 * i + r) < numberOfCoils ->
          value (m_coils d') (address + Z.of_nat (8 * i + r))
          = of_bool (Z.testbit p (Z.of_nat r)))
    /\ (forall a, a < address \/ address + numberOfCoils <= a ->
                  value (m_coils d') a = value (m_coils d) a).
Proof.
  intros Hzero Hdec Hn Hbc Hfit Hmax Hpayload.
  pose proof (decodeData_u16_u16_u8_range _ _ _ _ Hdec) as (Ha & _ & _).
  pose proof (ceil_div8_bounds numberOfCoils ltac:(lia)) as (Hc1 & Hc2 & Hc3).
  rewrite (processWriteMultipleCoilsRequest_from_zero _ _ _ _ _
             Hzero Hdec Hn Hbc Hfit Hmax Hpayload).
  eexists. split; [reflexivity |].
  unfold valueCount, QVector.count in Hfit.
  set (payload := drop 5 (data request)) in *.
  set (currentBit := Z.to_nat (8 - (byteCount * 8 - numberOfCoils))).
  set (block := unpack_block (map quint8 (rev payload)) currentBit).
  assert (Hblock : length block = Z.to_nat numberOfCoils).
  { subst block. rewrite length_unpack_block.
    assert (Hlen : length (map quint8 (rev payload)) = Z.to_nat byteCount)
      by (rewrite length_map, length_rev; lia).
    destruct (map quint8 (rev payload)) as [| b bytes']; cbn [length] in Hlen; [lia |].
    subst currentBit. lia. }
  assert (Hlen : length (take (Z.to_nat address) (values (m_coils d)) ++ block
                         ++ drop (Z.to_nat (address + numberOfCoils)) (values (m_coils d)))
                 = length (values (m_coils d))).
  { rewrite !length_app, length_take_le, length_drop, Hblock by lia. lia. }
  split; [| split].
  - apply same_shapes_set_coils, same_shape_setValues. exact Hlen.
  - intros i r p Hp Hr Hlt. cbn [m_coils set_coils].
    replace (address + Z.of_nat (8 * i + r))
      with (Z.of_nat (Z.to_nat address + (8 * i + r))) by lia.
    apply value_lookup. cbn [values setValues].
    rewrite lookup_app_r by (rewrite length_take_le; lia).
    rewrite length_take_le by lia.
    replace (Z.to_nat address + (8 * i + r) - Z.to_nat address)%nat
      with (8 * i + r)%nat by lia.
    rewrite lookup_app_l by lia.
    subst block. apply unpack_block_lookup; try assumption; subst currentBit; lia.
  - intros a Hout. cbn [m_coils set_coils].
    apply value_eq_of_lookup; cbn [values setValues]; [exact Hlen |].
    intros Hpos. destruct Hout as [Hbelow | Habove].
    + rewrite lookup_app_l by (rewrite length_take_le; lia).
      apply lookup_take_lt. lia.
    + rewrite lookup_app_r by (rewrite length_take_le; lia).
      rewrite length_take_le by lia.
      rewrite lookup_app_r by lia. rewrite Hblock, lookup_drop. f_equal. lia.
Qed.

(** X14: Write Multiple Coils on a coils table that starts at 0, for an
    admitted count with its byte count, a range inside the table and a
    payload of exactly that many bytes, echoes address and count, stores
    bit [r] of payload byte [i] as the word of coil [address + 8 * i + r]
    for every position below the count, and leaves every coil outside the
    range as it was. *)
Theorem processWriteMultipleCoilsRequest_coils d request address numberOfCoils byteCount :
  startAddress (m_coils d) = 0 ->
  decodeData_u16_u16_u8 request = Ok (address, numberOfCoils, byteCount) ->
  1 <= numberOfCoils <= 1968 ->
  byteCount = ceil_div8 numberOfCoils ->
  address + numberOfCoils <= valueCount (m_coils d) ->
  address + numberOfCoils <= 65536 ->
  Z.of_nat (length (drop 5 (data request))) = byteCount ->
  exists d',
    processWriteMultipleCoilsRequest d request
    = Ok (QModbusResponse_u16_u16 (functionCode request) address numberOfCoils, d')
    /\ same_shapes d d'
    /\ (forall (i r : nat) p,
          drop 5 (data request) !! i = Some p ->
          (r < 8)%nat ->
          Z.of_nat (8 * i + r) < numberOfCoils ->
          value (m_coils d') (address + Z.of_nat (8 * i + r))
          = of_bool (Z.testbit p (Z.of_nat r)))
    /\ (forall a, a < address \/ address + numberOfCoils <= a ->
                  value (m_coils d') a = value (m_coils d) a).
Proof. exact (processWriteMultipleCoilsRequest_bitwise d request address numberOfCoils byteCount). Qed.

Lemma processWriteMultipleCoilsRequest_coils_witness :
  exists d',
    processWriteMultipleCoilsRequest coils16
      (mkPdu FunctionCode.WriteMultipleCoils [0; 1; 0; 11; 2; 0xFF; 5])
    = Ok (QModbusResponse_u16_u16
            (functionCode (mkPdu FunctionCode.WriteMultipleCoils [0; 1; 0; 11; 2; 0xFF; 5]))
            1 11, d')
    /\ same_shapes coils16 d'
    /\ (forall (i r : nat) p,
          drop 5 (data (mkPdu FunctionCode.WriteMultipleCoils [0; 1; 0; 11; 2; 0xFF; 5])) !! i
          = Some p ->
          (r < 8)%nat ->
          Z.of_nat (8 * i + r) < 11 ->
          value (m_coils d') (1 + Z.of_nat (8 * i + r)) = of_bool (Z.testbit p (Z.of_nat r)))
    /\ (forall a, a < 1 \/ 1 + 11 <= a -> value (m_coils d') a = value (m_coils coils16) a).
Proof.
  apply (processWriteMultipleCoilsRequest_coils coils16
           (mkPdu FunctionCode.WriteMultipleCoils [0; 1; 0; 11; 2; 0xFF; 5]) 1 11 2).
  - reflexivity.
  - reflexivity.
  - lia.
  - reflexivity.
  - vm_compute. discriminate.
  - lia.
  - reflexivity.
Defined.

(** ** Writing coils, then reading them back *)


Lemma byte_testbit_high byte r : 0 <= byte < 256 -> 8 <= r -> Z.testbit byte r = false.
Proof.
  intros Hb Hr. rewrite <- (Z.mod_small byte (2 ^ 8)) by (change (2 ^ 8) with 256; lia).
  apply Z.mod_pow2_bits_high. lia.
Qed.




(** X16: on a coils table that starts at 0, Read Coils of the one coil an
    accepted Write Single Coil has just written returns one byte, 1 after
    the value 0xFF00 and 0 after the value 0x0000. *)
Theorem write_single_coil_then_read_coils d write read address coil d' :
  startAddress (m_coils d) = 0 ->
  decodeData_u16_u16 write = Ok (address, coil) ->
  processWriteSingleCoilRequest d write
  = Ok (QModbusResponse_u16_u16 (functionCode write) address coil, d') ->
  decodeData_u16_u16 read = Ok (address, 1) ->
  processReadCoilsRequest d' read
  = Ok (mkPdu (functionCode read) [1; if coil =? 0xFF00 then 1 else 0], d').
Proof.
  intros Hzero Hdec Hwrite Hread.
  destruct (processWriteSingleCoilRequest_stores _ _ _ _ _ _ Hdec Hwrite)
    as [[[ec Hec] _] | (_ & Hval & Hin & ->)].
  { symmetry in Hec. now apply exception_is_not_an_echo in Hec. }
  unfold QVector.in_range, QVector.count in Hin.
  apply andb_true_iff in Hin as [Hlo Hhi]. apply Z.leb_le in Hlo. apply Z.ltb_lt in Hhi.
  set (d' := set_coils d _).
  destruct (processReadCoilsRequest_bitwise d' read address 1)
    as (bytes & Hrun & Hlen & Hbytes); [exact Hzero | assumption | lia | |].
  { subst d'. unfold valueCount, QVector.count. cbn [m_coils set_coils values setValues].
    rewrite length_insert. lia. }
  rewrite Hrun. change (ceil_div8 1) with 1 in *. do 3 f_equal.
  unfold QVector.count in Hlen.
  destruct bytes as [| byte [| ? ?]]; cbn [length] in Hlen; try lia. f_equal.
  assert (Hword : value (m_coils d') address = coil).
  { subst d'. cbn [m_coils set_coils]. unfold setValues, value, QVector.value.
    cbn [values].
    assert (Hr : QVector.in_range (<[Z.to_nat address := coil]> (values (m_coils d)))
                                  address = true).
    { unfold QVector.in_range, QVector.count. rewrite length_insert.
      apply andb_true_iff. split; [apply Z.leb_le | apply Z.ltb_lt]; lia. }
    rewrite Hr, list_lookup_insert_eq by lia. reflexivity. }
  destruct (Hbytes 0%nat 0%nat ltac:(cbn; lia) ltac:(lia)) as (b & Hb & Hrange & _).
  injection Hb as <-.
  f_equal. apply Z.bits_inj'. intros r Hr.
  destruct (Z.lt_ge_cases r 8) as [Hr8 | Hr8].
  - destruct (Hbytes 0%nat (Z.to_nat r) ltac:(cbn; lia) ltac:(lia)) as (b & Hb & _ & Hbit).
    injection Hb as <-. rewrite Z2Nat.id in Hbit by lia. rewrite Hbit.
    destruct (Z.ltb_spec (Z.of_nat (8 * 0 + Z.to_nat r)) 1) as [Hlt | Hge].
    + assert (r = 0) as -> by lia. cbn [Z.to_nat Nat.mul Nat.add Z.of_nat].
      rewrite Z.add_0_r, Hword. destruct Hval as [-> | ->]; reflexivity.
    + destruct Hval as [-> | ->]; cbn [Z.eqb Pos.eqb].
      * symmetry. apply Z.bits_0.
      * symmetry. change 1 with (2 ^ 0). rewrite Z.pow2_bits_eqb by lia.
        apply Z.eqb_neq. lia.
  - rewrite byte_testbit_high by lia.
    destruct Hval as [-> | ->]; cbn [Z.eqb Pos.eqb]; symmetry.
    + apply Z.bits_0.
    + change 1 with (2 ^ 0). rewrite Z.pow2_bits_eqb by lia. apply Z.eqb_neq. lia.
Qed.

Lemma write_single_coil_then_read_coils_witness :
  processReadCoilsRequest
    (set_coils coils16 (mkDataUnit Coils 0 (<[5%nat := 0xFF00]> (replicate 16 0))))
    (mkPdu FunctionCode.ReadCoils [0; 5; 0; 1])
  = Ok (mkPdu (functionCode (mkPdu FunctionCode.ReadCoils [0; 5; 0; 1]))
              [1; if 0xFF00 =? 0xFF00 then 1 else 0],
        set_coils coils16 (mkDataUnit Coils 0 (<[5%nat := 0xFF00]> (replicate 16 0)))).
Proof.
  apply (write_single_coil_then_read_coils coils16
           (mkPdu FunctionCode.WriteSingleCoil [0; 5; 0xFF; 0])
           (mkPdu FunctionCode.ReadCoils [0; 5; 0; 1]) 5 0xFF00); reflexivity.
Defined.

(** ** Accesses outside the value vector *)

(** X17: Read Coils on a coils table that starts at 0 never indexes outside
    a vector: every payload that holds the address and the count gets an
    answer, and the register map stays as it was. *)
Theorem processReadCoilsRequest_total_from_zero d request address numberOfCoils :
  startAddress (m_coils d) = 0 ->
  decodeData_u16_u16 request = Ok (address, numberOfCoils) ->
  exists response, processReadCoilsRequest d request = Ok (response, d).
Proof.
  intros Hzero Hdec.
  destruct (processReadCoilsRequest_guards d request address numberOfCoils Hdec)
    as (Hvalue & Haddress & _).
  destruct (Z_lt_ge_dec numberOfCoils 1) as [Hlo | Hlo].
  { eexists. apply Hvalue. lia. }
  destruct (Z_gt_le_dec numberOfCoils 2000) as [Hhi | Hhi].
  { eexists. apply Hvalue. lia. }
  pose proof (decodeData_u16_u16_range _ _ _ Hdec) as [Ha _].
  destruct (Z_lt_ge_dec (to_unsigned (startAddress (m_coils d) + valueCount (m_coils d)))
                        (address + numberOfCoils)) as [He | He].
  { eexists. apply Haddress. split; [lia | now right]. }
  rewrite Hzero, to_unsigned_nonneg in He by (unfold valueCount, QVector.count; lia).
  destruct (processReadCoilsRequest_from_zero d request address numberOfCoils)
    as (k & Hrun); [assumption | assumption | lia | lia |].
  eexists. exact Hrun.
Qed.

Lemma processReadCoilsRequest_total_from_zero_witness :
  exists response,
    processReadCoilsRequest coils16 (mkPdu FunctionCode.ReadCoils [0; 15; 0; 1])
    = Ok (response, coils16).
Proof.
  apply (processReadCoilsRequest_total_from_zero coils16
           (mkPdu FunctionCode.ReadCoils [0; 15; 0; 1]) 15 1); reflexivity.
Defined.

(** X18: Write Single Coil indexes the value vector outside its bounds
    exactly when the value is 0x0000 or 0xFF00, the address passes the
    address check (from the start address up to and including the unsigned
    sum of start address and count) and the address is not below the
    number of values. *)
Theorem processWriteSingleCoilRequest_fault_iff d request address coil :
  decodeData_u16_u16 request = Ok (address, coil) ->
  (processWriteSingleCoilRequest d request = Fault IndexOutOfRange
   <-> (coil = 0 \/ coil = 0xFF00)
       /\ startAddress (m_coils d) <= address
          <= to_unsigned (startAddress (m_coils d) + valueCount (m_coils d))
       /\ valueCount (m_coils d) <= address).
Proof.
  intros Hdec. pose proof (decodeData_u16_u16_range _ _ _ Hdec) as [Ha _].
  unfold processWriteSingleCoilRequest. rewrite Hdec. cbn [bind].
  destruct (Z.eqb_spec coil 0x0000) as [H0 | H0];
    destruct (Z.eqb_spec coil 0xFF00) as [H1 | H1]; cbn [negb andb].
  4:{ split; [discriminate | tauto]. }
  all: destruct (Z.gtb_spec (startAddress (m_coils d)) address) as [Hs | Hs]; cbn [orb];
    [split; [discriminate | intros (_ & ? & _); lia] |].
  all: destruct (Z.ltb_spec (to_unsigned (startAddress (m_coils d) + valueCount (m_coils d))) address)
    as [He | He]; [split; [discriminate | intros (_ & ? & _); lia] |].
  all: unfold QVector.set, QVector.in_range, valueCount in *.
  all: destruct (Z.leb_spec 0 address); [| lia]; cbn [andb].
  all: destruct (Z.ltb_spec address (QVector.count (values (m_coils d)))); cbn [bind].
  all: try (split; [discriminate | intros (_ & _ & ?); lia]).
  all: split; [intros _ | reflexivity].
  all: split; [tauto | lia].
Qed.

Lemma processWriteSingleCoilRequest_fault_iff_witness :
  processWriteSingleCoilRequest coils16 (mkPdu FunctionCode.WriteSingleCoil [0; 16; 0xFF; 0])
  = Fault IndexOutOfRange
  <-> (0xFF00 = 0 \/ 0xFF00 = 0xFF00)
      /\ startAddress (m_coils coils16) <= 16
         <= to_unsigned (startAddress (m_coils coils16) + valueCount (m_coils coils16))
      /\ valueCount (m_coils coils16) <= 16.
Proof.
  apply (processWriteSingleCoilRequest_fault_iff coils16
           (mkPdu FunctionCode.WriteSingleCoil [0; 16; 0xFF; 0]) 16 0xFF00).
  reflexivity.
Defined.

(** ** Laws of the element write *)

Lemma set_unit_set_unit d table u u' :
  set_unit (set_unit d table u) table u' = set_unit d table u'.
Proof. destruct table; reflexivity. Qed.

Lemma set_unit_id d table u : unit_of d table = Some u -> set_unit d table u = d.
Proof. destruct d, table; cbn; try discriminate; now intros [= ->]. Qed.

Lemma in_range_setValue u i w j :
  QVector.in_range (values (setValue u i w)) j = QVector.in_range (values u) j.
Proof.
  unfold setValue. destruct (QVector.in_range (values u) i); [| reflexivity].
  unfold QVector.in_range, QVector.count. cbn [values setValues]. now rewrite length_insert.
Qed.

Lemma setValue_setValue u i w w' : setValue (setValue u i w) i w' = setValue u i w'.
Proof.
  unfold setValue at 1. rewrite in_range_setValue. unfold setValue.
  destruct (QVector.in_range (values u) i); [| reflexivity].
  unfold setValues. cbn [registerType startAddress values]. now rewrite list_insert_insert_eq.
Qed.

Lemma setValue_value u i : setValue u i (value u i) = u.
Proof.
  unfold setValue, value, QVector.value.
  destruct (QVector.in_range (values u) i) eqn:Hin; [| reflexivity].
  unfold QVector.in_range, QVector.count in Hin.
  apply andb_true_iff in Hin as [Hlo Hhi]. apply Z.leb_le in Hlo. apply Z.ltb_lt in Hhi.
  destruct (lookup_lt_is_Some_2 (values u) (Z.to_nat i)) as [w Hw]; [lia |].
  rewrite Hw. cbn [default]. rewrite list_insert_id by assumption.
  destruct u; reflexivity.
Qed.

(** X19: of two element writes to the same address the second one
    decides: the outcome is that of the second write alone. *)
Theorem setData_element_last_write_wins d table address w w' :
  setData_element (snd (setData_element d table address w)) table address w'
  = setData_element d table address w'.
Proof.
  unfold setData_element at 2 3.
  destruct (unit_of d table) as [unit |] eqn:Hu; cbn [snd].
  2:{ unfold setData_element. now rewrite Hu. }
  destruct (negb (isValid unit) || (address <? startAddress unit)
            || (address >=? to_unsigned (startAddress unit + valueCount unit))) eqn:Hguard; cbn [snd].
  { unfold setData_element. now rewrite Hu, Hguard. }
  unfold setData_element.
  rewrite unit_of_set_unit by (eapply unit_of_Some_valid; eassumption).
  pose proof (setValue_shape unit address w) as Hshape.
  rewrite (isValid_same_shape _ _ Hshape).
  destruct Hshape as (_ & -> & ->). rewrite Hguard.
  now rewrite set_unit_set_unit, setValue_setValue.
Qed.

(** X20: writing back the word an element read has just returned is
    accepted and changes nothing. *)
Theorem setData_element_of_data_element d table address w :
  data_element d table address = (true, Some w) ->
  setData_element d table address w = (true, d).
Proof.
  unfold data_element, setData_element.
  destruct (unit_of d table) as [unit |] eqn:Hu; [| discriminate].
  destruct (negb (isValid unit) || (address <? startAddress unit)
            || (address >=? to_unsigned (startAddress unit + valueCount unit))); [discriminate |].
  intros [= <-]. rewrite setValue_value. now rewrite set_unit_id.
Qed.

Lemma setData_element_of_data_element_witness :
  setData_element holding_from_2 HoldingRegisters 3 13 = (true, holding_from_2).
Proof.
  apply (setData_element_of_data_element holding_from_2 HoldingRegisters 3 13).
  reflexivity.
Defined.

(** * Replacing the register map *)

Lemma unit_of_setMap s d map key :
  key <> Invalid -> unit_of (snd (setMap s d map)) key = Some (map_value s map key).
Proof. destruct key; intros H; try congruence; reflexivity. Qed.



(** X22: after [setMap] with a map that lacks a kind, every access to that
    kind is refused: element reads and writes at every address, range
    writes, and range reads that start at a non-negative address; the
    refused writes leave the new map as it is. *)
Theorem setMap_missing_kind s d map key :
  map !! key = None ->
  (forall address, data_element (snd (setMap s d map)) key address = (false, None))
  /\ (forall address w,
        setData_element (snd (setMap s d map)) key address w
        = (false, snd (setMap s d map)))
  /\ (forall newData, registerType newData = key ->
        setData_unit (snd (setMap s d map)) newData = (false, snd (setMap s d map)))
  /\ (forall q, registerType q = key -> 0 <= startAddress q ->
        fst (data_unit (snd (setMap s d map)) (Some q)) = false).
Proof.
  intros Hnone.
  destruct (decide (key = Invalid)) as [-> | Hkey].
  { repeat split.
    - intros newData Hq. unfold setData_unit. now rewrite Hq.
    - intros q Hq _. unfold data_unit. now rewrite Hq. }
  assert (Hunit : unit_of (snd (setMap s d map)) key = Some (defaultDataUnit s))
    by (rewrite unit_of_setMap by assumption; unfold map_value; now rewrite Hnone).
  repeat split.
  - intros address. unfold data_element. now rewrite Hunit.
  - intros address w. unfold setData_element. now rewrite Hunit.
  - intros newData Hq. unfold setData_unit. now rewrite Hq, Hunit.
  - intros q Hq Hpos. unfold data_unit. rewrite Hq, Hunit.
    destruct (Z.ltb_spec (startAddress q) 0); [lia |].
    change (valueCount (defaultDataUnit s)) with 0.
    change (startAddress (defaultDataUnit s)) with s.
    destruct (Z.ltb_spec (startAddress q) s); [reflexivity |]. cbn [orb].
    destruct (Z.gtb_spec (startAddress q) (s + 0 - 1)); [reflexivity | lia].
Qed.

Lemma setMap_missing_kind_witness :
  (forall address,
     data_element (snd (setMap 0 coils16 {[ Coils := mkDataUnit Coils 0 [1; 0; 1] ]}))
                  HoldingRegisters address = (false, None))
  /\ (forall address w,
        setData_element (snd (setMap 0 coils16 {[ Coils := mkDataUnit Coils 0 [1; 0; 1] ]}))
                        HoldingRegisters address w
        = (false, snd (setMap 0 coils16 {[ Coils := mkDataUnit Coils 0 [1; 0; 1] ]})))
  /\ (forall newData, registerType newData = HoldingRegisters ->
        setData_unit (snd (setMap 0 coils16 {[ Coils := mkDataUnit Coils 0 [1; 0; 1] ]})) newData
        = (false, snd (setMap 0 coils16 {[ Coils := mkDataUnit Coils 0 [1; 0; 1] ]})))
  /\ (forall q, registerType q = HoldingRegisters -> 0 <= startAddress q ->
        fst (data_unit (snd (setMap 0 coils16 {[ Coils := mkDataUnit Coils 0 [1; 0; 1] ]}))
                       (Some q)) = false).
Proof.
  apply (setMap_missing_kind 0 coils16 {[ Coils := mkDataUnit Coils 0 [1; 0; 1] ]}
           HoldingRegisters).
  reflexivity.
Defined.

(** X23: on a server whose map lacks the coils the answer depends on the
    start address of the default unit.  When it is not negative, Read Coils
    with an admitted count and Write Multiple Coils with an admitted count
    and its byte count are answered by the IllegalDataAddress exception at
    every address.  When it is negative (an [int] below 0) the unsigned sum
    of the address check is above every range end and every Read Coils
    request passes it: a count of 1 to 7 is answered with byte count 0 and
    no data byte, and a count of 8 to 2000 indexes the empty vector. *)
Theorem setMap_without_coils s d map :
  map !! Coils = None ->
  (0 <= s ->
   (forall request address numberOfCoils,
      decodeData_u16_u16 request = Ok (address, numberOfCoils) ->
      1 <= numberOfCoils <= 2000 ->
      processReadCoilsRequest (snd (setMap s d map)) request
      = Ok (QModbusExceptionResponse (functionCode request) IllegalDataAddress,
            snd (setMap s d map)))
   /\ (forall request address numberOfCoils,
         decodeData_u16_u16_u8 request = Ok (address, numberOfCoils, ceil_div8 numberOfCoils) ->
         1 <= numberOfCoils <= 1968 ->
         processWriteMultipleCoilsRequest (snd (setMap s d map)) request
         = Ok (QModbusExceptionResponse (functionCode request) IllegalDataAddress,
               snd (setMap s d map))))
  /\ (- 2 ^ 31 <= s < 0 ->
      forall request address numberOfCoils,
        decodeData_u16_u16 request = Ok (address, numberOfCoils) ->
        (1 <= numberOfCoils < 8 ->
         processReadCoilsRequest (snd (setMap s d map)) request
         = Ok (mkPdu (functionCode request) [0], snd (setMap s d map)))
        /\ (8 <= numberOfCoils <= 2000 ->
            processReadCoilsRequest (snd (setMap s d map)) request
            = Fault IndexOutOfRange)).
Proof.
  intros Hnone.
  assert (Hcoils : m_coils (snd (setMap s d map)) = defaultDataUnit s)
    by (cbn; unfold map_value; now rewrite Hnone).
  split.
  - intros Hs. split.
    + intros request address n Hdec Hn.
      apply (processReadCoilsRequest_guards _ _ _ _ Hdec). rewrite Hcoils.
      change (valueCount (defaultDataUnit s)) with 0.
      change (startAddress (defaultDataUnit s)) with s.
      rewrite to_unsigned_nonneg by lia. lia.
    + intros request address n Hdec Hn.
      unfold processWriteMultipleCoilsRequest. rewrite Hdec. cbn [bind]. cbv zeta.
      rewrite expectedBytes_ceil by lia. rewrite Z.eqb_refl. cbn [negb].
      destruct (Z.ltb_spec n 1); [lia |]. cbn [orb].
      destruct (Z.gtb_spec n 0x07B0); [lia |]. cbn [orb].
      rewrite Hcoils.
      change (valueCount (defaultDataUnit s)) with 0.
      change (startAddress (defaultDataUnit s)) with s.
      rewrite to_unsigned_nonneg by lia.
      destruct (Z.gtb_spec s address); cbn [orb]; [reflexivity |].
      destruct (Z.ltb_spec (s + 0) (address + n)); [reflexivity | lia].
  - intros Hs request address n Hdec.
    pose proof (decodeData_u16_u16_range _ _ _ Hdec) as [Ha _].
    assert (Hrun : 1 <= n <= 2000 ->
              processReadCoilsRequest (snd (setMap s d map)) request
              = let* (byteCount, bytes) := packCoils [] n in
                Ok (QModbusResponse_u8_bytes (functionCode request) byteCount bytes,
                    snd (setMap s d map))).
    { intros Hn. unfold processReadCoilsRequest. rewrite Hdec. cbn [bind]. rewrite Hcoils.
      change (valueCount (defaultDataUnit s)) with 0.
      change (startAddress (defaultDataUnit s)) with s.
      change (values (defaultDataUnit s)) with (@nil Z).
      rewrite to_unsigned_neg by lia.
      destruct (Z.ltb_spec n 1); [lia |]. cbn [orb].
      destruct (Z.gtb_spec n 0x07D0); [lia |].
      destruct (Z.gtb_spec s address); [lia |]. cbn [orb].
      destruct (Z.ltb_spec (s + 0 + 2 ^ 32) (address + n)); [lia |].
      unfold QVector.mid. rewrite drop_nil, take_nil. reflexivity. }
    assert (Hpack : packCoils [] n
                    = let* bytes := readCoils_bytes (Z.to_nat (quint8 (n / 8))) [] 0 [] in
                      Ok (quint8 (n / 8), bytes)) by reflexivity.
    split.
    + intros Hn. rewrite Hrun, Hpack by lia.
      rewrite (Z.div_small n 8) by lia. reflexivity.
    + intros Hn. rewrite Hrun, Hpack by lia.
      assert (Hq : 1 <= n / 8 < 256)
        by (split; [apply Z.div_le_lower_bound | apply Z.div_lt_upper_bound]; lia).
      rewrite quint8_small by lia.
      destruct (Z.to_nat (n / 8)) as [| m] eqn:Hm; [lia |].
      reflexivity.
Qed.

Lemma setMap_without_coils_witness :
  ((forall request address numberOfCoils,
      decodeData_u16_u16 request = Ok (address, numberOfCoils) ->
      1 <= numberOfCoils <= 2000 ->
      processReadCoilsRequest (snd (setMap 0 coils16 ∅)) request
      = Ok (QModbusExceptionResponse (functionCode request) IllegalDataAddress,
            snd (setMap 0 coils16 ∅)))
   /\ (forall request address numberOfCoils,
         decodeData_u16_u16_u8 request = Ok (address, numberOfCoils, ceil_div8 numberOfCoils) ->
         1 <= numberOfCoils <= 1968 ->
         processWriteMultipleCoilsRequest (snd (setMap 0 coils16 ∅)) request
         = Ok (QModbusExceptionResponse (functionCode request) IllegalDataAddress,
               snd (setMap 0 coils16 ∅))))
  /\ processReadCoilsRequest (snd (setMap (-1) coils16 ∅))
       (mkPdu FunctionCode.ReadCoils [0; 0; 0; 1])
     = Ok (mkPdu (functionCode (mkPdu FunctionCode.ReadCoils [0; 0; 0; 1])) [0],
           snd (setMap (-1) coils16 ∅)).
Proof.
  split.
  - apply (setMap_without_coils 0 coils16 ∅); [reflexivity | lia].
  - refine (proj1 (proj2 (setMap_without_coils (-1) coils16 ∅ _) _
                     (mkPdu FunctionCode.ReadCoils [0; 0; 0; 1]) 0 1 _) _);
      [reflexivity | lia | reflexivity | lia].
Defined.

(** * Further properties of the range accessors *)



(** X25: a write accessor that returns [false] has changed nothing. *)
Theorem refused_write_changes_nothing d :
  (forall table address w,
     fst (setData_element d table address w) = false ->
     snd (setData_element d table address w) = d)
  /\ (forall newData,
        fst (setData_unit d newData) = false -> snd (setData_unit d newData) = d).
Proof.
  split.
  - intros table address w. apply setData_element_refused.
  - intros newData. apply setData_unit_refused.
Qed.

Lemma refused_write_changes_nothing_witness :
  snd (setData_unit holding_from_2 (mkDataUnit HoldingRegisters 5 [1; 2])) = holding_from_2.
Proof.
  apply (proj2 (refused_write_changes_nothing holding_from_2)
           (mkDataUnit HoldingRegisters 5 [1; 2])).
  reflexivity.
Defined.

(** X26: on a valid table that starts at 0, an accepted range write
    replaces the words of the addressed range by the new values, in order,
    and leaves the words before and after the range, and the other tables,
    as they were. *)
Theorem setData_unit_overwrites_range d newData current :
  unit_of d (registerType newData) = Some current ->
  isValid current = true ->
  startAddress current = 0 ->
  0 <= startAddress newData ->
  1 <= valueCount newData ->
  startAddress newData + valueCount newData <= valueCount current ->
  setData_unit d newData
  = (true,
     set_unit d (registerType newData)
       (setValues current
          (take (Z.to_nat (startAddress newData)) (values current)
           ++ values newData
           ++ drop (Z.to_nat (startAddress newData + valueCount newData)) (values current)))).
Proof. apply setData_unit_from_zero. Qed.

Lemma setData_unit_overwrites_range_witness :
  setData_unit (mkServer no_table no_table no_table
                  (mkDataUnit HoldingRegisters 0 [10; 11; 12; 13]))
               (mkDataUnit HoldingRegisters 1 [7; 8])
  = (true,
     set_unit (mkServer no_table no_table no_table
                 (mkDataUnit HoldingRegisters 0 [10; 11; 12; 13]))
       (registerType (mkDataUnit HoldingRegisters 1 [7; 8]))
       (setValues (mkDataUnit HoldingRegisters 0 [10; 11; 12; 13])
          (take (Z.to_nat (startAddress (mkDataUnit HoldingRegisters 1 [7; 8])))
                (values (mkDataUnit HoldingRegisters 0 [10; 11; 12; 13]))
           ++ values (mkDataUnit HoldingRegisters 1 [7; 8])
           ++ drop (Z.to_nat (startAddress (mkDataUnit HoldingRegisters 1 [7; 8])
                              + valueCount (mkDataUnit HoldingRegisters 1 [7; 8])))
                   (values (mkDataUnit HoldingRegisters 0 [10; 11; 12; 13]))))).
Proof.
  apply (setData_unit_overwrites_range
           (mkServer no_table no_table no_table
              (mkDataUnit HoldingRegisters 0 [10; 11; 12; 13]))
           (mkDataUnit HoldingRegisters 1 [7; 8])
           (mkDataUnit HoldingRegisters 0 [10; 11; 12; 13]));
    try reflexivity; vm_compute; discriminate.
Defined.

(** * Element writes in sequence *)

Lemma setData_element_accepted d table address w unit :
  unit_of d table = Some unit ->
  isValid unit = true ->
  startAddress unit <= address < to_unsigned (startAddress unit + valueCount unit) ->
  setData_element d table address w = (true, set_unit d table (setValue unit address w)).
Proof.
  intros Hu Hv Hb. unfold setData_element. rewrite Hu, Hv. cbn [negb orb].
  destruct (Z.ltb_spec address (startAddress unit)); [lia |]. cbn [orb].
  destruct (Z.geb_spec address (to_unsigned (startAddress unit + valueCount unit))); [lia | reflexivity].
Qed.

Lemma setData_element_not_accepted d table address w :
  ~ accepts d table address -> setData_element d table address w = (false, d).
Proof.
  intros Hno. destruct (setData_element d table address w) as [[|] d'] eqn:E.
  - exfalso. apply Hno. destruct (setData_element_true _ _ _ _ _ E) as (u & ? & ? & ? & _).
    exists u. tauto.
  - pose proof (setData_element_refused d table address w) as H. rewrite E in H.
    cbn in H. now rewrite H.
Qed.

Lemma accepts_dec d table address : accepts d table address \/ ~ accepts d table address.
Proof.
  destruct (setData_element d table address 0) as [[|] d'] eqn:E.
  - left. destruct (setData_element_true _ _ _ _ _ E) as (u & ? & ? & ? & _).
    exists u. tauto.
  - right. intros (u & Hu & Hv & Hb).
    rewrite (setData_element_accepted _ _ _ _ _ Hu Hv Hb) in E. discriminate.
Qed.

(** A write does not change which addresses are accepted. *)
Lemma accepts_after_write d table address w table' address' :
  accepts (snd (setData_element d table address w)) table' address'
  <-> accepts d table' address'.
Proof.
  destruct (accepts_dec d table address) as [(u & Hu & Hv & Hb) | Hno].
  2:{ now rewrite setData_element_not_accepted. }
  rewrite (setData_element_accepted _ _ _ _ _ Hu Hv Hb). cbn [snd].
  pose proof (setValue_shape u address w) as Hshape.
  unfold accepts. destruct (decide (table' = table)) as [-> | Hne].
  - rewrite unit_of_set_unit by (eapply unit_of_Some_valid; eassumption). rewrite Hu.
    split.
    + intros (u' & [= <-] & Hv' & Hb'). exists u.
      rewrite (isValid_same_shape _ _ Hshape) in Hv'.
      destruct Hshape as (_ & Hs & Hc). rewrite Hs, Hc in Hb'. tauto.
    + intros (u' & [= <-] & Hv' & Hb'). exists (setValue u address w).
      rewrite (isValid_same_shape _ _ Hshape).
      destruct Hshape as (_ & -> & ->). tauto.
  - now rewrite unit_of_set_unit_ne.
Qed.

Lemma set_unit_commute d table table' u u' :
  table <> table' ->
  set_unit (set_unit d table u) table' u' = set_unit (set_unit d table' u') table u.
Proof. destruct table, table'; intros H; try congruence; reflexivity. Qed.

Lemma setValue_commute u i j w w' :
  i <> j -> setValue (setValue u i w) j w' = setValue (setValue u j w') i w.
Proof.
  intros Hne. unfold setValue at 1 3. rewrite !in_range_setValue. unfold setValue.
  destruct (QVector.in_range (values u) i) eqn:Hi;
    destruct (QVector.in_range (values u) j) eqn:Hj; try reflexivity.
  unfold setValues. cbn [registerType startAddress values]. f_equal.
  unfold QVector.in_range in Hi, Hj.
  apply andb_true_iff in Hi as [Hi _]. apply Z.leb_le in Hi.
  apply andb_true_iff in Hj as [Hj _]. apply Z.leb_le in Hj.
  symmetry. apply list_insert_insert_ne. lia.
Qed.

(** X27: two element writes to different places, in different tables or
    at different addresses of one table, leave the same register map in
    either order. *)
Theorem setData_element_commute d table address w table' address' w' :
  table' <> table \/ address' <> address ->
  snd (setData_element (snd (setData_element d table address w)) table' address' w')
  = snd (setData_element (snd (setData_element d table' address' w')) table address w).
Proof.
  intros Hother.
  destruct (accepts_dec d table address) as [Ha | Ha].
  2:{ rewrite (setData_element_not_accepted d table address) by assumption. cbn [snd].
      rewrite (setData_element_not_accepted _ table address); [reflexivity |].
      now rewrite accepts_after_write. }
  destruct (accepts_dec d table' address') as [Ha' | Ha'].
  2:{ rewrite (setData_element_not_accepted d table' address') by assumption. cbn [snd].
      rewrite (setData_element_not_accepted _ table' address'); [reflexivity |].
      now rewrite accepts_after_write. }
  pose proof (proj2 (accepts_after_write d table address w table' address') Ha') as Hb'.
  pose proof (proj2 (accepts_after_write d table' address' w' table address) Ha) as Hb.
  destruct Ha as (u & Hu & Hv & Hbd). destruct Ha' as (u' & Hu' & Hv' & Hbd').
  rewrite (setData_element_accepted _ _ _ w _ Hu Hv Hbd) in Hb' |- *.
  rewrite (setData_element_accepted _ _ _ w' _ Hu' Hv' Hbd') in Hb |- *.
  cbn [snd] in *.
  destruct Hb as (v & Hw & Hvv & Hvb). destruct Hb' as (v' & Hw' & Hvv' & Hvb').
  rewrite (setData_element_accepted _ _ _ w _ Hw Hvv Hvb).
  rewrite (setData_element_accepted _ _ _ w' _ Hw' Hvv' Hvb'). cbn [snd].
  destruct (decide (table' = table)) as [-> | Hne].
  - destruct Hother as [? | Hna]; [congruence |].
    rewrite unit_of_set_unit in Hw, Hw' by (eapply unit_of_Some_valid; eassumption).
    injection Hw as <-. injection Hw' as <-.
    rewrite Hu in Hu'. injection Hu' as <-.
    rewrite !set_unit_set_unit. f_equal. apply setValue_commute. congruence.
  - rewrite unit_of_set_unit_ne in Hw, Hw' by congruence.
    rewrite Hu in Hw. injection Hw as <-. rewrite Hu' in Hw'. injection Hw' as <-.
    apply set_unit_commute. congruence.
Qed.

Lemma setData_element_commute_witness :
  snd (setData_element (snd (setData_element holding_from_2 HoldingRegisters 2 7))
                       HoldingRegisters 3 8)
  = snd (setData_element (snd (setData_element holding_from_2 HoldingRegisters 3 8))
                         HoldingRegisters 2 7).
Proof.
  apply (setData_element_commute holding_from_2 HoldingRegisters 2 7 HoldingRegisters 3 8).
  right. discriminate.
Defined.
